(** * pythonparser.source: buffers, ranges and the rewriter

    A shallow embedding of [pythonparser/source.py] and the proofs of the
    properties its specification states.

    Conventions.
    - A Python [str] is a list of characters ([text]); a Python [int] is a [Z].
      The characters are [ascii]; nothing depends on the alphabet but the
      test for the newline.
    - A method that may raise returns a [result]; the exception is a value of
      [exn].
    - [Buffer] objects are referred to by [Range] and [Rewriter] objects and
      compared by identity, so they live in a store ([heap]) and are named by
      their location.  A method of [Buffer] itself is written in
      state-passing style: it returns its result and the state of [self]
      after the call (the line index is cached in [self]). *)

From Equations Require Import Equations.
From Stdlib Require Import ZArith Ascii String Sorting.Sorted Permutation.
From stdpp Require Import base list gmap.
From stdpp Require Import pretty.

Local Open Scope Z_scope.

(** ** Objects, exceptions and results *)

(** The identity of a [Buffer] object. *)
Abbreviation loc := positive.

(** A Python [str]. *)
Abbreviation text := (list ascii).

(** [class Range]: three fields, never assigned after [__init__]. *)
Record Range : Type := mkRange {
  source_buffer : loc;
  begin_pos : Z;
  end_pos : Z
}.

(** The exceptions the module can raise.  [RewriterConflict] carries the
    fields [first] and [second]; [NameError] carries the name that is not
    bound. *)
Inductive exn : Type :=
| IndexError
| ValueError
| NameError (name : string)
| RewriterConflict (first second : Range).

Inductive result (A : Type) : Type :=
| Ok (a : A)
| Raise (e : exn).
Arguments Ok {A} a.
Arguments Raise {A} e.

(** Sequencing: an exception raised by the first computation propagates.
    stdpp's notation [x ← m; k] is used for it. *)
#[global] Instance result_ret : MRet result := @Ok.
#[global] Instance result_bind : MBind result := fun A B k m =>
  match m with
  | Ok a => k a
  | Raise e => Raise e
  end.

(** ** The Python built-ins the module uses *)

Module Py.

(** A string literal of the source, as a [text]. *)
Definition str (s : string) : text := list_ascii_of_string s.

(** ["\n"] *)
Definition newline : ascii := ascii_of_nat 10.

(** [len(s)] *)
Definition len {A} (s : list A) : Z := Z.of_nat (length s).

(** How a slice bound is read, for a sequence of length [n]: a negative
    bound counts from the end, and the outcome is brought back into
    [0..n].  A missing bound ([None]) takes the default [d]. *)
Definition adjust_index (n i : Z) : Z :=
  if i <? 0 then (if i + n <? 0 then 0 else i + n)
  else if n <=? i then n else i.

Definition bound (n : Z) (d : Z) (i : option Z) : Z :=
  match i with
  | None => d
  | Some i => adjust_index n i
  end.

(** [s[start:stop]] *)
Definition slice {A} (s : list A) (start stop : option Z) : list A :=
  let lo := bound (len s) 0 start in
  let hi := bound (len s) (len s) stop in
  take (Z.to_nat (hi - lo)) (drop (Z.to_nat lo) s).

(** [s[i]]: a negative index counts from the end; [IndexError] outside. *)
Definition getitem {A} (s : list A) (i : Z) : result A :=
  let j := if i <? 0 then i + len s else i in
  if j <? 0 then Raise IndexError
  else match s !! Z.to_nat j with
       | Some x => Ok x
       | None => Raise IndexError
       end.

(** [str.find]: the scan for the first occurrence of the character [c],
    [i] being the offset of the head of [s] in the whole string. *)
Fixpoint find_at (c : ascii) (s : text) (i : Z) : Z :=
  match s with
  | [] => -1
  | x :: s' => if Ascii.eqb x c then i else find_at c s' (i + 1)
  end.

(** [s.find(c, start)]: the lowest index at or after [start] where [c]
    occurs, [-1] when there is none. *)
Definition find (s : text) (c : ascii) (start : option Z) : Z :=
  let lo := bound (len s) 0 start in
  find_at c (drop (Z.to_nat lo) s) lo.

(** Where [find] looks and what it can answer. *)
Lemma find_at_range c s i :
  find_at c s i = -1 \/ i <= find_at c s i < i + len s.
Proof.
  revert i; induction s as [|x s IH]; intros i; simpl; [by left|].
  destruct (Ascii.eqb x c).
  - right. unfold len; simpl; lia.
  - destruct (IH (i + 1)) as [->|H]; [by left|right].
    unfold len in *; simpl; lia.
Qed.

Lemma adjust_index_range n i : 0 <= n -> 0 <= adjust_index n i <= n.
Proof. unfold adjust_index; intros; repeat case_match; lia. Qed.

Lemma find_range s c start :
  find s c start = -1 \/
  bound (len s) 0 start <= find s c start < len s.
Proof.
  unfold find.
  assert (Hb : 0 <= bound (len s) 0 start <= len s).
  { destruct start; simpl; [apply adjust_index_range|]; unfold len; lia. }
  destruct (find_at_range c (drop (Z.to_nat (bound (len s) 0 start)) s)
              (bound (len s) 0 start)) as [?|H]; [by left|right].
  unfold len in *; rewrite length_drop in H; lia.
Qed.

(** ["".join(parts)] *)
Definition join (parts : list text) : text := concat parts.

(** [bisect.bisect_right(a, x)], the loop of the standard library:
<<
    lo, hi = 0, len(a)
    while lo < hi:
        mid = (lo + hi) // 2
        if x < a[mid]: hi = mid
        else: lo = mid + 1
    return lo
>> *)
Equations? bisect_loop (a : list Z) (x : Z) (lo hi : Z) : result Z
  by wf (Z.to_nat (hi - lo)) lt :=
bisect_loop a x lo hi :=
  match decide (lo < hi) with
  | left _ =>
      let mid := (lo + hi) `div` 2 in
      match getitem a mid with
      | Ok v => if bool_decide (x < v) then bisect_loop a x lo mid
                else bisect_loop a x (mid + 1) hi
      | Raise e => Raise e
      end
  | right _ => Ok lo
  end.
Proof.
  all: subst mid; pose proof (Z.div_le_lower_bound (lo + hi) 2 lo);
    pose proof (Z.div_lt_upper_bound (lo + hi) 2 hi); lia.
Qed.

Definition bisect_right (a : list Z) (x : Z) : result Z :=
  bisect_loop a x 0 (len a).

(** [l.sort(key=key)]: the sort is stable, so its outcome is the one list
    that is sorted by [key] and keeps equal keys in their order; it is
    computed here by insertion. *)
Section Sort.
Context {A : Type} (key : A -> Z).

Fixpoint insert_by (x : A) (l : list A) : list A :=
  match l with
  | [] => [x]
  | y :: l' => if key x <=? key y then x :: y :: l' else y :: insert_by x l'
  end.

Fixpoint sort_by (l : list A) : list A :=
  match l with
  | [] => []
  | x :: l' => insert_by x (sort_by l')
  end.

End Sort.

End Py.

Import Py.

(** ** [class Buffer] *)

Record Buffer : Type := mkBuffer {
  source : text;
  name : string;
  first_line : Z;
  _line_begins : option (list Z)
}.

(** [Buffer.__init__(self, source, name, first_line)] *)
Definition Buffer__init__ (source : text) (name : string) (first_line : Z)
  : Buffer :=
  {| source := source; name := name; first_line := first_line;
     _line_begins := None |}.

(** [Buffer(source)], with the defaults [name="<input>"], [first_line=1]. *)
Definition Buffer_default (source : text) : Buffer :=
  Buffer__init__ source "<input>" 1.

(** [self._line_begins = v] *)
Definition set_line_begins (self : Buffer) (v : list Z) : Buffer :=
  {| source := source self; name := name self;
     first_line := first_line self; _line_begins := Some v |}.

(** What is left to scan, for the loop of [_extract_line_begins]. *)
Definition scan_left (src : text) (index : option Z) : nat :=
  match index with
  | None => S (S (length src))
  | Some i => Z.to_nat (len src + 1 - i)
  end.

(** The [while True] loop of [_extract_line_begins]; [line_begins] is the
    list under construction. *)
Equations? extract_loop (src : text) (index : option Z)
  (line_begins : list Z) : list Z by wf (scan_left src index) lt :=
extract_loop src index line_begins :=
  let index' := find src newline index + 1 in
  match decide (index' = 0) with
  | left _ => line_begins
  | right _ => extract_loop src (Some index') (line_begins ++ [index'])
  end.
Proof.
  subst index'. unfold scan_left.
  destruct (find_range src newline index) as [?|H]; [lia|].
  destruct index as [i|]; simpl in H.
  - unfold adjust_index in H. unfold len in *. repeat case_match; lia.
  - unfold len in *. lia.
Qed.

(** [Buffer._extract_line_begins(self)]: the list, and [self] after the
    call.  The cached list is returned when it is a non-empty list. *)
Definition Buffer__extract_line_begins (self : Buffer) : list Z * Buffer :=
  match _line_begins self with
  | Some (x :: l) => (x :: l, self)
  | _ =>
      let line_begins := extract_loop (source self) None [0] in
      (line_begins, set_line_begins self line_begins)
  end.

(** [Buffer.source_line(self, lineno)] *)
Definition Buffer_source_line (self : Buffer) (lineno : Z)
  : result text * Buffer :=
  let '(line_begins, self) := Buffer__extract_line_begins self in
  let lineno := lineno - first_line self in
  if bool_decide (lineno >= 0 /\ lineno + 1 < len line_begins) then
    (* first, last = line_begins[lineno:lineno + 2] *)
    match slice line_begins (Some lineno) (Some (lineno + 2)) with
    | [first; last] =>
        (Ok (slice (source self) (Some first) (Some last)), self)
    | _ => (Raise ValueError, self)
    end
  else if bool_decide (lineno >= 0 /\ lineno < len line_begins) then
    (first ← getitem line_begins (-1);
     Ok (slice (source self) (Some first) None), self)
  else (Raise IndexError, self).

(** [Buffer.decompose_position(self, offset)] *)
Definition Buffer_decompose_position (self : Buffer) (offset : Z)
  : result (Z * Z) * Buffer :=
  let '(line_begins, self) := Buffer__extract_line_begins self in
  (lineno ← (n ← bisect_right line_begins offset; Ok (n - 1));
   if bool_decide (offset >= 0 /\ offset <= len (source self)) then
     begin ← getitem line_begins lineno;
     Ok (lineno + first_line self, offset - begin)
   else Raise IndexError, self).

(** ** [class Range] *)

(** The store of [Buffer] objects.  A lookup that finds no object is not an
    outcome of the Python program (a reference always names a live object);
    the functions that read the store answer [None] there. *)
Abbreviation heap := (gmap loc Buffer).

(** [Range.__init__(self, source_buffer, begin_pos, end_pos)]: the three
    fields are stored as given. *)
Definition Range__init__ (source_buffer : loc) (begin_pos end_pos : Z)
  : result Range :=
  Ok (mkRange source_buffer begin_pos end_pos).

(** [Range.begin(self)] *)
Definition Range_begin (self : Range) : Range :=
  mkRange (source_buffer self) (begin_pos self) (begin_pos self).

(** [Range.end(self)] *)
Definition Range_end (self : Range) : Range :=
  mkRange (source_buffer self) (end_pos self) (end_pos self).

(** [Range.size(self)] *)
Definition Range_size (self : Range) : Z :=
  end_pos self - begin_pos self.

(** [Range.join(self, other)].  [Buffer] defines no [__eq__], so [!=] on
    two buffers compares their identities. *)
Definition Range_join (self other : Range) : result Range :=
  if bool_decide (source_buffer self ≠ source_buffer other) then
    Raise ValueError
  else
    Ok (mkRange (source_buffer self)
          (Z.min (begin_pos self) (begin_pos other))
          (Z.max (end_pos self) (end_pos other))).

(** [Range.source(self)] *)
Definition Range_source (h : heap) (self : Range) : option text :=
  b ← h !! source_buffer self;
  Some (slice (source b) (Some (begin_pos self)) (Some (end_pos self))).

(** [Range.__eq__(self, other)], for [other] a [Range] (the test
    [type(self) == type(other)] then holds). *)
Definition Range__eq__ (self other : Range) : bool :=
  bool_decide (source_buffer self = source_buffer other)
  && bool_decide (begin_pos self = begin_pos other)
  && bool_decide (end_pos self = end_pos other).

(** [Range.__ne__(self, other)] *)
Definition Range__ne__ (self other : Range) : bool :=
  negb (Range__eq__ self other).

(** [Range.column(self)].  The call of [decompose_position] may fill the
    cache of the buffer, so the store after the call is returned too. *)
Definition Range_column (h : heap) (self : Range)
  : option (result Z * heap) :=
  b ← h !! source_buffer self;
  let '(r, b') := Buffer_decompose_position b (begin_pos self) in
  Some ('(line, column) ← r; Ok column, <[source_buffer self := b']> h).

(** [Range.line(self)] *)
Definition Range_line (h : heap) (self : Range)
  : option (result Z * heap) :=
  b ← h !! source_buffer self;
  let '(r, b') := Buffer_decompose_position b (begin_pos self) in
  Some ('(line, column) ← r; Ok line, <[source_buffer self := b']> h).

(** [Range.column_range(self)]: the two columns are computed one after
    the other; an exception of the first call ends the method. *)
Definition Range_column_range (h : heap) (self : Range)
  : option (result (Z * Z) * heap) :=
  '(r1, h1) ← Range_column h (Range_begin self);
  match r1 with
  | Raise e => Some (Raise e, h1)
  | Ok c1 =>
      '(r2, h2) ← Range_column h1 (Range_end self);
      Some (c2 ← r2; Ok (c1, c2), h2)
  end.

(** [Range.source_line(self)] *)
Definition Range_source_line (h : heap) (self : Range)
  : option (result text * heap) :=
  '(r1, h1) ← Range_line h self;
  match r1 with
  | Raise e => Some (Raise e, h1)
  | Ok line =>
      b ← h1 !! source_buffer self;
      let '(r2, b') := Buffer_source_line b line in
      Some (r2, <[source_buffer self := b']> h1)
  end.

(** ["%s:%d:%d-%d" % (name, line, c1, c2)]: [%d] writes an integer in
    decimal, with a minus sign when it is negative, as [pretty] does. *)
Definition format_location (name : string) (line c1 c2 : Z) : string :=
  name +:+ ":" +:+ pretty line +:+ ":" +:+ pretty c1 +:+ "-" +:+ pretty c2.

(** [Range.__str__(self)]: the four values are computed from left to
    right, then formatted. *)
Definition Range__str__ (h : heap) (self : Range)
  : option (result string * heap) :=
  b ← h !! source_buffer self;
  '(r1, h1) ← Range_line h self;
  match r1 with
  | Raise e => Some (Raise e, h1)
  | Ok line =>
      '(r2, h2) ← Range_column h1 self;
      match r2 with
      | Raise e => Some (Raise e, h2)
      | Ok column =>
          '(r3, h3) ← Range_column h2 (Range_end self);
          Some (end_column ← r3;
                Ok (format_location (name b) line (column + 1)
                      (end_column + 1)), h3)
      end
  end.

(** ** [class RewriterConflict] *)

(** The names bound in the module once its body has run: the imports and
    the four classes. *)
Definition module_names : list string :=
  ["absolute_import"; "division"; "print_function"; "unicode_literals";
   "bisect"; "Buffer"; "Range"; "RewriterConflict"; "Rewriter"]%string.

(** The built-in names the module refers to.  Python names are case
    sensitive, and no built-in is called [exception]. *)
Definition builtin_names : list string :=
  ["None"; "True"; "Exception"; "IndexError"; "ValueError"; "NameError";
   "len"; "min"; "max"; "zip"; "type"; "repr"]%string.

(** The evaluation of a global name in a method body. *)
Definition load_name (x : string) : result unit :=
  if bool_decide (x ∈ module_names ++ builtin_names) then Ok ()
  else Raise (NameError x).

(** [RewriterConflict.__init__(self, first, second)]: the fields are
    assigned, then the initialiser of the base class is called through the
    name [exception]. *)
Definition RewriterConflict__init__ (first second : Range) : result exn :=
  _ ← load_name "exception";
  Ok (RewriterConflict first second).

(** ** [class Rewriter] *)

Record Rewriter : Type := mkRewriter {
  buffer : loc;
  ranges : list (Range * text)
}.

(** [Rewriter.__init__(self, buffer)] *)
Definition Rewriter__init__ (buffer : loc) : Rewriter :=
  {| buffer := buffer; ranges := [] |}.

(** [Rewriter.replace(self, range, replacement)] *)
Definition Rewriter_replace (self : Rewriter) (range : Range)
  (replacement : text) : Rewriter :=
  {| buffer := buffer self; ranges := ranges self ++ [(range, replacement)] |}.

(** [Rewriter.remove(self, range)] *)
Definition Rewriter_remove (self : Rewriter) (range : Range) : Rewriter :=
  Rewriter_replace self range (str "").

(** [Rewriter.insert_before(self, range, text)] *)
Definition Rewriter_insert_before (self : Rewriter) (range : Range)
  (txt : text) : Rewriter :=
  Rewriter_replace self (Range_begin range) txt.

(** [Rewriter.insert_after(self, range, text)] *)
Definition Rewriter_insert_after (self : Rewriter) (range : Range)
  (txt : text) : Rewriter :=
  Rewriter_replace self (Range_end range) txt.

(** [Rewriter._sort(self)]: sorts [self.ranges] in place. *)
Definition Rewriter__sort (self : Rewriter) : Rewriter :=
  {| buffer := buffer self;
     ranges := sort_by (fun x => begin_pos (fst x)) (ranges self) |}.

(** The [for] loop of [_check], over the pairs that [zip] yields. *)
Fixpoint check_loop (pairs : list ((Range * text) * (Range * text)))
  : result unit :=
  match pairs with
  | [] => Ok ()
  | ((fst, _), (snd, _)) :: pairs' =>
      if bool_decide (begin_pos snd < end_pos fst) then
        e ← RewriterConflict__init__ fst snd; Raise e
      else check_loop pairs'
  end.

(** [Rewriter._check(self)] *)
Definition Rewriter__check (self : Rewriter) : result unit :=
  check_loop (zip (ranges self) (slice (ranges self) (Some 1) None)).

(** One turn of the [for] loop of [rewrite], on the pair
    [(rewritten, pos)]. *)
Definition rewrite_step (src : text) (st : list text * Z)
  (edit : Range * text) : list text * Z :=
  let '(rewritten, pos) := st in
  let '(range, replacement) := edit in
  ((rewritten ++ [slice src (Some pos) (Some (begin_pos range))])
     ++ [replacement],
   end_pos range).

(** [Rewriter.rewrite(self)]: the outcome (the new [Buffer], by its
    location, or the exception), [self] after the call and the store after
    the call. *)
Definition Rewriter_rewrite (self : Rewriter) (h : heap)
  : option (result loc * Rewriter * heap) :=
  let self := Rewriter__sort self in
  match Rewriter__check self with
  | Raise e => Some (Raise e, self, h)
  | Ok _ =>
      b ← h !! buffer self;
      let '(rewritten, pos) :=
        fold_left (rewrite_step (source b)) (ranges self) ([], 0) in
      let rewritten := rewritten ++ [slice (source b) (Some pos) None] in
      let new := fresh (dom h) in
      Some (Ok new, self,
            <[new := Buffer__init__ (join rewritten) (name b) (first_line b)]> h)
  end.

(** ** The words of the specification

    The definitions that the statements below use: what the specification
    names (the newline offsets, overlap, the splice), the state a [Buffer]
    is in between two calls, and the buffers and rewriters of its
    scenarios. *)

(** The offsets of the newline characters of [s], in increasing order, [i]
    being the offset of the head of [s]. *)
Fixpoint newline_offsets (s : text) (i : Z) : list Z :=
  match s with
  | [] => []
  | x :: s' =>
      if Ascii.eqb x newline then i :: newline_offsets s' (i + 1)
      else newline_offsets s' (i + 1)
  end.

(** The number of newline characters of [s]. *)
Definition count_newlines (s : text) : nat :=
  length (filter (λ c, c = newline) s).

(** The line index of a source text, as [_extract_line_begins] computes it
    when nothing is cached. *)
Definition line_index (src : text) : list Z := extract_loop src None [0].

(** The state of a [Buffer] object between two calls: the cache is empty or
    holds the line index of [source]. *)
Definition Buffer_wf (b : Buffer) : Prop :=
  match _line_begins b with
  | None => True
  | Some l => l = line_index (source b)
  end.

(** [r] splits [a] into the elements [<= x], before it, and those [> x]. *)
Definition splits_at (a : list Z) (x : Z) (r : Z) : Prop :=
  (forall (i : nat) v, a !! i = Some v -> Z.of_nat i < r -> v <= x) /\
  (forall (i : nat) v, a !! i = Some v -> r <= Z.of_nat i -> x < v).

(** An edit: the pair [(range, replacement)] that [replace] records. *)
Abbreviation edit := (Range * text)%type.

(** The edits of [self] once [_sort] has run. *)
Definition sorted_edits (self : Rewriter) : list edit :=
  ranges (Rewriter__sort self).

(** Two edits overlap when the second begins strictly before the end of
    the first. *)
Definition overlap (e1 e2 : edit) : Prop :=
  begin_pos (fst e2) < end_pos (fst e1).

(** [x] and [y] are consecutive in [l]. *)
Definition adjacent {A} (l : list A) (x y : A) : Prop :=
  exists i : nat, l !! i = Some x /\ l !! S i = Some y.

(** No two consecutive edits of [l] overlap: what [_check] looks for. *)
Definition adjacent_disjoint (l : list edit) : Prop :=
  forall e1 e2, adjacent l e1 e2 -> ~ overlap e1 e2.

(** No edit of [l] overlaps with one that comes before it. *)
Definition pairwise_disjoint (l : list edit) : Prop :=
  forall (i j : nat) e1 e2,
    (i < j)%nat -> l !! i = Some e1 -> l !! j = Some e2 -> ~ overlap e1 e2.

(** The splice, as the specification words it: walk the edits from the
    cursor [pos]; copy the source from the cursor up to the edit's
    [begin_pos], emit the replacement, move the cursor to the edit's
    [end_pos]; after the last edit, copy the tail of the source. *)
Fixpoint splice (src : text) (pos : Z) (edits : list edit) : text :=
  match edits with
  | [] => slice src (Some pos) None
  | (range, replacement) :: edits' =>
      slice src (Some pos) (Some (begin_pos range)) ++ replacement
        ++ splice src (end_pos range) edits'
  end.

(** The text of the buffer that a call of [rewrite] returned, if it
    returned one. *)
Definition rewritten_text (out : option (result loc * Rewriter * heap))
  : option text :=
  match out with
  | Some (Ok new, _, h') => source <$> h' !! new
  | _ => None
  end.

(** The text ["ab\ncd\nef"]. *)
Definition three_lines : text :=
  str "ab" ++ [newline] ++ str "cd" ++ [newline] ++ str "ef".

(** A store with one buffer, [Buffer("abcde")], at location 1. *)
Definition abcde_heap : heap :=
  {[ 1%positive := Buffer_default (str "abcde") ]}.

(** The claim C9 as it is stated, for the source of a range whose
    [begin_pos] is past its [end_pos]. *)
Definition inverted_source_empty : Prop :=
  forall (h : heap) (b : Buffer) (r : Range),
    h !! source_buffer r = Some b -> begin_pos r > end_pos r ->
    Range_source h r = Some (str "").

(** The characters of [src] at the offsets [a], ..., [b - 1], for
    [0 <= a]; none when [b <= a]. *)
Definition between (src : text) (a b : Z) : text :=
  take (Z.to_nat (b - a)) (drop (Z.to_nat a) src).

(** Two readings of an offset [i] into a text of length [n]: brought back
    into [0..n] ([clamp]); and counted from the end when negative, then
    brought back into [0..n] ([from_end]). *)
Definition clamp (n i : Z) : Z := Z.max 0 (Z.min i n).

Definition from_end (n i : Z) : Z :=
  if bool_decide (i < 0) then Z.max 0 (n + i) else Z.min i n.

(** The splice, every offset read through [f]. *)
Fixpoint splice_with (f : Z -> Z) (src : text) (pos : Z) (edits : list edit)
  : text :=
  match edits with
  | [] => between src (f pos) (len src)
  | (range, replacement) :: edits' =>
      between src (f pos) (f (begin_pos range)) ++ replacement
        ++ splice_with f src (end_pos range) edits'
  end.

(** On ["abcde"]: [replace(Range(buf, 0, 2), "XY")], then
    [remove(Range(buf, 3, 5))]. *)
Definition xy_rewriter : Rewriter :=
  Rewriter_remove
    (Rewriter_replace (Rewriter__init__ 1) (mkRange 1 0 2) (str "XY"))
    (mkRange 1 3 5).

(** On ["abcde"]: edits at [Range(buf, 3, 8)] and [Range(buf, 0, 5)],
    recorded in this order. *)
Definition overlapping_rewriter : Rewriter :=
  Rewriter_remove
    (Rewriter_replace (Rewriter__init__ 1) (mkRange 1 3 8) (str "Z"))
    (mkRange 1 0 5).

(** On ["abcde"]: [insert_after(Range(buf, 0, 2), "-")], then
    [replace(Range(buf, 2, 4), "CD")]: the second edit begins where the
    first ends. *)
Definition touching_rewriter : Rewriter :=
  Rewriter_replace
    (Rewriter_insert_after (Rewriter__init__ 1) (mkRange 1 0 2) (str "-"))
    (mkRange 1 2 4) (str "CD").

(** On ["abcde"]: [replace(Range(buf, -1, -1), "X")]. *)
Definition negative_rewriter : Rewriter :=
  Rewriter_replace (Rewriter__init__ 1) (mkRange 1 (-1) (-1)) (str "X").

(** [f] and [g] agree on the offsets that a splice from [pos] reads. *)
Definition offsets_agree (f g : Z -> Z) (pos : Z) (edits : list edit) : Prop :=
  f pos = g pos /\
  Forall (λ e : edit, f (begin_pos (fst e)) = g (begin_pos (fst e)) /\
                      f (end_pos (fst e)) = g (end_pos (fst e))) edits.

(** The claim C10 as it is stated: without overlap in the sorted edits,
    [rewrite()] returns a buffer, and its text is the splice with every
    offset clamped into the source. *)
Definition rewrite_clamps_offsets : Prop :=
  forall (self : Rewriter) (h : heap) (b : Buffer),
    h !! buffer self = Some b ->
    adjacent_disjoint (sorted_edits self) ->
    exists new h',
      Rewriter_rewrite self h = Some (Ok new, Rewriter__sort self, h') /\
      source <$> h' !! new =
        Some (splice_with (clamp (len (source b))) (source b) 0
                (sorted_edits self)).

(** On ["abcde"]: an edit at [Range(other, 7, 9)], a range of another
    buffer, past the end of the source. *)
Definition foreign_rewriter : Rewriter :=
  Rewriter_replace (Rewriter__init__ 1) (mkRange 2 7 9) (str "!").

(** The source cut at the offsets [cuts]: from each offset to the next
    one, and from the last one to the end. *)
Fixpoint pieces (src : text) (cuts : list Z) : list text :=
  match cuts with
  | [] => []
  | c :: cuts' =>
      match cuts' with
      | [] => drop (Z.to_nat c) src
      | c' :: _ => take (Z.to_nat (c' - c)) (drop (Z.to_nat c) src)
      end :: pieces src cuts'
  end.

(** What [source_line] answers for each line number from [first_line] on,
    as many as the line index has entries. *)
Definition all_lines (self : Buffer) : list (result text) :=
  map (λ i : nat,
         fst (Buffer_source_line self (first_line self + Z.of_nat i)))
      (seq 0 (length (line_index (source self)))).

(** The edits of [l] follow each other from the cursor [pos] in a text of
    length [n]: each begins at or after the cursor, does not end before it
    begins, and moves the cursor to its end; the last cursor is in the
    text. *)
Fixpoint chained (n pos : Z) (l : list edit) : Prop :=
  match l with
  | [] => pos <= n
  | (range, _) :: l' =>
      pos <= begin_pos range /\ begin_pos range <= end_pos range /\
      chained n (end_pos range) l'
  end.

(** The number of characters that the edits of [l] remove, and the number
    that they put in. *)
Definition removed (l : list edit) : Z :=
  foldr (λ e acc, Range_size (fst e) + acc) 0 l.

Definition inserted (l : list edit) : Z :=
  foldr (λ e acc, len (snd e) + acc) 0 l.

(** [xy_rewriter] with its two edits recorded in the other order. *)
Definition yx_rewriter : Rewriter :=
  Rewriter_replace
    (Rewriter_remove (Rewriter__init__ 1) (mkRange 1 3 5))
    (mkRange 1 0 2) (str "XY").

(** On ["abcde"]: two ranges, each replaced by its own source. *)
Definition own_source_rewriter : Rewriter :=
  Rewriter_replace
    (Rewriter_replace (Rewriter__init__ 1) (mkRange 1 3 5) (str "de"))
    (mkRange 1 0 2) (str "ab").

(** On ["abcde"]: [insert_before(Range(buf, 2, 4), "x")], then
    [insert_after(Range(buf, 0, 2), "y")]: two insertions at offset 2. *)
Definition same_point_rewriter : Rewriter :=
  Rewriter_insert_after
    (Rewriter_insert_before (Rewriter__init__ 1) (mkRange 1 2 4) (str "x"))
    (mkRange 1 0 2) (str "y").

(** The store [h] holds at [l] the buffer [b0], whatever the state of its
    cache. *)
Definition holds_buffer (h : heap) (l : loc) (b0 : Buffer) : Prop :=
  exists b, h !! l = Some b /\ Buffer_wf b /\ source b = source b0 /\
            name b = name b0 /\ first_line b = first_line b0.

(** The two edits of [xy_rewriter] and of [yx_rewriter], in the order of
    their [begin_pos]. *)
Definition xy_edits : list edit :=
  [(mkRange 1 0 2, str "XY"); (mkRange 1 3 5, str "")].

(** ** The line index *)

Lemma adjust_index_id n i : 0 <= i <= n -> adjust_index n i = i.
Proof. unfold adjust_index; intros; repeat case_match; lia. Qed.

Lemma len_drop {A} (s : list A) (i : Z) :
  0 <= i <= len s -> len (drop (Z.to_nat i) s) = len s - i.
Proof. unfold len; rewrite length_drop; lia. Qed.

Lemma find_at_newline_offsets s i :
  0 <= i ->
  (find_at newline s i = -1 /\ newline_offsets s i = []) \/
  (exists p, find_at newline s i = p /\ i <= p < i + len s /\
     newline_offsets s i =
       p :: newline_offsets (drop (S (Z.to_nat (p - i))) s) (p + 1)).
Proof.
  revert i; induction s as [|x s IH]; intros i Hi; simpl; [by left|].
  destruct (Ascii.eqb x newline).
  - right; exists i. replace (i - i) with 0 by lia.
    unfold len; simpl; repeat split; try lia.
  - destruct (IH (i + 1)) as [[E1 E2]|(p & E1 & E2 & E3)]; [lia|by left|].
    right; exists p. unfold len in *; simpl; repeat split; try lia.
    rewrite E3. repeat f_equal.
    replace (Z.to_nat (p - i)) with (S (Z.to_nat (p - (i + 1)))) by lia.
    reflexivity.
Qed.

Lemma extract_loop_from n : forall src i acc,
  0 <= i <= len src -> (Z.to_nat (len src - i) <= n)%nat ->
  extract_loop src (Some i) acc =
    acc ++ map Z.succ (newline_offsets (drop (Z.to_nat i) src) i).
Proof.
  induction n as [|n IH]; intros src i acc Hi Hn;
    rewrite extract_loop_equation_1; cbv zeta; unfold find; simpl bound;
    rewrite adjust_index_id by done;
    destruct (find_at_newline_offsets (drop (Z.to_nat i) src) i)
      as [[E1 E2]|(p & E1 & E2 & E3)]; try lia;
    rewrite ?len_drop in E2 by done.
  - rewrite E1, E2. simpl. by rewrite app_nil_r.
  - lia.
  - rewrite E1, E2. simpl. by rewrite app_nil_r.
  - rewrite E1, E3. destruct (decide (p + 1 = 0)) as [?|_]; [lia|].
    rewrite IH by lia. rewrite <- app_assoc. simpl.
    rewrite drop_drop. unfold Z.succ. repeat f_equal. lia.
Qed.

Lemma line_index_eq src :
  line_index src = 0 :: map Z.succ (newline_offsets src 0).
Proof.
  unfold line_index.
  assert (E : extract_loop src None [0] = extract_loop src (Some 0) [0]).
  { rewrite (extract_loop_equation_1 src None),
      (extract_loop_equation_1 src (Some 0)).
    unfold find; simpl bound. rewrite adjust_index_id; [done|unfold len; lia]. }
  rewrite E, (extract_loop_from (S (length src))); [done| |]; unfold len; lia.
Qed.

Lemma newline_offsets_length s i :
  length (newline_offsets s i) = count_newlines s.
Proof.
  unfold count_newlines. revert i; induction s as [|x s IH]; intros i; [done|].
  rewrite filter_cons. cbn [newline_offsets].
  destruct (Ascii.eqb_spec x newline) as [->|Hx].
  - rewrite decide_True by done. cbn [length]. by rewrite IH.
  - rewrite decide_False by done. apply IH.
Qed.

Lemma newline_offsets_ge s i p : p ∈ newline_offsets s i -> i <= p.
Proof.
  revert i; induction s as [|x s IH]; intros i; simpl; [by intros ?%elem_of_nil|].
  destruct (Ascii.eqb x newline).
  - intros [->|H]%elem_of_cons; [lia|]. apply IH in H. lia.
  - intros H. apply IH in H. lia.
Qed.

(** The [k]-th offset is where the [k]-th newline is: a newline is there,
    and [k] newlines come before it. *)
Lemma newline_offsets_lookup s : forall i (k : nat) p,
  newline_offsets s i !! k = Some p ->
  i <= p /\ s !! Z.to_nat (p - i) = Some newline /\
  count_newlines (take (Z.to_nat (p - i)) s) = k.
Proof.
  unfold count_newlines.
  induction s as [|x s IH]; intros i k p; simpl; [done|].
  assert (Hstep : forall k', newline_offsets s (i + 1) !! k' = Some p ->
    i <= p /\ (x :: s) !! Z.to_nat (p - i) = Some newline /\
    length (filter (λ c, c = newline) (take (Z.to_nat (p - i)) (x :: s))) =
      ((if Ascii.eqb x newline then 1 else 0) + k')%nat).
  { intros k' H. apply IH in H as (H1 & H2 & H3).
    replace (Z.to_nat (p - i)) with (S (Z.to_nat (p - (i + 1)))) by lia.
    rewrite firstn_cons, filter_cons. split; [lia|]. split; [done|].
    destruct (Ascii.eqb_spec x newline) as [->|Hx].
    - rewrite decide_True by done. cbn [length]. by rewrite H3.
    - rewrite decide_False by done. by rewrite H3. }
  destruct (Ascii.eqb_spec x newline) as [->|Hx].
  - destruct k as [|k]; simpl.
    + intros [= ->]. replace (p - p) with 0 by lia. simpl. by split; [lia|].
    + intros H. by apply Hstep in H.
  - intros H. by apply Hstep in H.
Qed.

Lemma newline_offsets_increasing s : forall i (j k : nat) p q,
  newline_offsets s i !! j = Some p -> newline_offsets s i !! k = Some q ->
  (j < k)%nat -> p < q.
Proof.
  induction s as [|x s IH]; intros i j k p q; simpl; [done|].
  destruct (Ascii.eqb x newline); [|apply IH].
  destruct j as [|j], k as [|k]; simpl; try lia.
  - intros [= ->] H _. apply list_elem_of_lookup_2, newline_offsets_ge in H. lia.
  - intros Hp Hq Hjk. apply (IH (i + 1) j k); [done..|lia].
Qed.

(** What [_extract_line_begins] returns and leaves behind. *)
Lemma Buffer__extract_line_begins_eq self :
  Buffer_wf self ->
  Buffer__extract_line_begins self =
    (line_index (source self),
     match _line_begins self with
     | Some (_ :: _) => self
     | _ => set_line_begins self (line_index (source self))
     end).
Proof.
  unfold Buffer_wf, Buffer__extract_line_begins.
  destruct (_line_begins self) as [[|x l]|]; try done. by intros ->.
Qed.

Lemma Buffer__init__wf src nm fl : Buffer_wf (Buffer__init__ src nm fl).
Proof. done. Qed.

Lemma Buffer__extract_line_begins_wf self :
  Buffer_wf self ->
  let self' := snd (Buffer__extract_line_begins self) in
  Buffer_wf self' /\ source self' = source self /\ name self' = name self /\
  first_line self' = first_line self.
Proof.
  intros H. rewrite Buffer__extract_line_begins_eq by done. simpl.
  destruct (_line_begins self) as [[|x l]|] eqn:E; done.
Qed.

Lemma line_index_increasing src (i j : nat) x y :
  line_index src !! i = Some x -> line_index src !! j = Some y ->
  (i < j)%nat -> x < y.
Proof.
  rewrite line_index_eq. destruct i as [|i], j as [|j]; simpl; try lia.
  - intros [= <-] H _. rewrite list_lookup_fmap in H.
    destruct (newline_offsets src 0 !! j) as [p|] eqn:E; [|done].
    injection H as <-. apply list_elem_of_lookup_2, newline_offsets_ge in E. lia.
  - rewrite !list_lookup_fmap.
    destruct (newline_offsets src 0 !! i) as [p|] eqn:Ep; [|done].
    destruct (newline_offsets src 0 !! j) as [q|] eqn:Eq; [|done].
    intros [= <-] [= <-] Hij.
    pose proof (newline_offsets_increasing src 0 i j p q Ep Eq). lia.
Qed.

Lemma line_index_length src :
  length (line_index src) = S (count_newlines src).
Proof.
  rewrite line_index_eq. simpl. by rewrite length_map, newline_offsets_length.
Qed.

Lemma getitem_nonneg {A} (s : list A) (i : Z) v :
  0 <= i -> s !! Z.to_nat i = Some v -> getitem s i = Ok v.
Proof.
  intros Hi Hv. unfold getitem.
  destruct (Z.ltb_spec i 0); [lia|]. destruct (Z.ltb_spec i 0); [lia|].
  by rewrite Hv.
Qed.

(** [bisect_right] on a list in increasing order: the loop ends, and what
    it returns splits the list into the elements [<= x] and those [> x]. *)
Section Bisect.
Variables (a : list Z) (x : Z).
Hypothesis a_sorted : forall (i j : nat) u v,
  a !! i = Some u -> a !! j = Some v -> (i <= j)%nat -> u <= v.

Lemma bisect_loop_splits n : forall lo hi,
  0 <= lo <= hi -> hi <= len a -> (Z.to_nat (hi - lo) <= n)%nat ->
  (forall (i : nat) v, a !! i = Some v -> Z.of_nat i < lo -> v <= x) ->
  (forall (i : nat) v, a !! i = Some v -> hi <= Z.of_nat i -> x < v) ->
  exists r, bisect_loop a x lo hi = Ok r /\ lo <= r <= hi /\ splits_at a x r.
Proof.
  induction n as [|n IH]; intros lo hi Hlo Hhi Hn Hbelow Habove;
    rewrite bisect_loop_equation_1; destruct (decide (lo < hi)) as [Hlt|Hge];
    try lia.
  1, 3: exists lo; split; [done|]; split; [lia|]; split;
    [done|intros i v ??; apply (Habove i v); [done|lia]].
  cbv zeta. set (mid := (lo + hi) `div` 2).
  assert (Hmid : lo <= mid < hi).
  { subst mid. pose proof (Z.div_le_lower_bound (lo + hi) 2 lo).
    pose proof (Z.div_lt_upper_bound (lo + hi) 2 hi). lia. }
  destruct (lookup_lt_is_Some_2 a (Z.to_nat mid)) as [v Hv];
    [unfold len in Hhi; lia|].
  rewrite (getitem_nonneg a mid v) by (done || lia).
  case_bool_decide as Hxv.
  - destruct (IH lo mid) as (r & E & Hr & Hs); try lia; try done.
    { intros i w Hw Hi. pose proof (a_sorted (Z.to_nat mid) i v w Hv Hw). lia. }
    exists r. split; [done|]. split; [lia|done].
  - destruct (IH (mid + 1) hi) as (r & E & Hr & Hs); try lia; try done.
    { intros i w Hw Hi. pose proof (a_sorted i (Z.to_nat mid) w v Hw Hv). lia. }
    exists r. split; [done|]. split; [lia|done].
Qed.

Lemma bisect_right_splits :
  exists r, bisect_right a x = Ok r /\ 0 <= r <= len a /\ splits_at a x r.
Proof.
  apply (bisect_loop_splits (length a)); unfold len; try lia.
  intros i v Hv%lookup_lt_Some. lia.
Qed.

End Bisect.

(** ** [Buffer.decompose_position] and [Buffer.source_line] *)

(** The two methods, once the line index is known. *)
Lemma Buffer_decompose_position_eq self offset :
  Buffer_wf self ->
  Buffer_decompose_position self offset =
    (lineno ← (n ← bisect_right (line_index (source self)) offset; Ok (n - 1));
     if bool_decide (offset >= 0 /\ offset <= len (source self)) then
       begin ← getitem (line_index (source self)) lineno;
       Ok (lineno + first_line self, offset - begin)
     else Raise IndexError,
     snd (Buffer__extract_line_begins self)).
Proof.
  intros H. unfold Buffer_decompose_position.
  rewrite Buffer__extract_line_begins_eq by done.
  by destruct (_line_begins self) as [[|??]|].
Qed.

Lemma Buffer_source_line_eq self lineno :
  Buffer_wf self ->
  Buffer_source_line self lineno =
    (let line_begins := line_index (source self) in
     let lineno := lineno - first_line self in
     if bool_decide (lineno >= 0 /\ lineno + 1 < len line_begins) then
       match slice line_begins (Some lineno) (Some (lineno + 2)) with
       | [first; last] => Ok (slice (source self) (Some first) (Some last))
       | _ => Raise ValueError
       end
     else if bool_decide (lineno >= 0 /\ lineno < len line_begins) then
       first ← getitem line_begins (-1);
       Ok (slice (source self) (Some first) None)
     else Raise IndexError,
     snd (Buffer__extract_line_begins self)).
Proof.
  intros H. unfold Buffer_source_line.
  rewrite Buffer__extract_line_begins_eq by done.
  destruct (_line_begins self) as [[|??]|]; cbv beta iota zeta;
    cbn [source first_line set_line_begins snd];
    repeat case_bool_decide; try done;
    by destruct (slice _ _ _) as [|? [|? [|? ?]]].
Qed.

(** [Buffer_wf] holds after [__init__] and after every method, and no
    method changes the three public fields. *)
Lemma Buffer_decompose_position_wf self offset :
  Buffer_wf self ->
  let self' := snd (Buffer_decompose_position self offset) in
  Buffer_wf self' /\ source self' = source self /\ name self' = name self /\
  first_line self' = first_line self.
Proof.
  intros H. rewrite Buffer_decompose_position_eq by done.
  by apply Buffer__extract_line_begins_wf.
Qed.

Lemma Buffer_source_line_wf self lineno :
  Buffer_wf self ->
  let self' := snd (Buffer_source_line self lineno) in
  Buffer_wf self' /\ source self' = source self /\ name self' = name self /\
  first_line self' = first_line self.
Proof.
  intros H. rewrite Buffer_source_line_eq by done.
  by apply Buffer__extract_line_begins_wf.
Qed.

Lemma line_index_sorted src (i j : nat) u v :
  line_index src !! i = Some u -> line_index src !! j = Some v ->
  (i <= j)%nat -> u <= v.
Proof.
  intros Hu Hv Hij. destruct (decide (i = j)) as [->|Hne].
  - rewrite Hu in Hv. injection Hv as ->. lia.
  - pose proof (line_index_increasing src i j u v Hu Hv). lia.
Qed.

Lemma line_index_head src : line_index src !! 0%nat = Some 0.
Proof. by rewrite line_index_eq. Qed.

(** A valid offset is decomposed at the last line that begins at or before
    it. *)
Lemma Buffer_decompose_position_valid self offset :
  Buffer_wf self -> 0 <= offset <= len (source self) ->
  exists (i : nat) begin,
    line_index (source self) !! i = Some begin /\ begin <= offset /\
    (forall (j : nat) v, line_index (source self) !! j = Some v ->
       v <= offset -> (j <= i)%nat) /\
    fst (Buffer_decompose_position self offset) =
      Ok (Z.of_nat i + first_line self, offset - begin).
Proof.
  intros Hwf Ho. rewrite Buffer_decompose_position_eq by done. cbn [fst].
  destruct (bisect_right_splits (line_index (source self)) offset
              (line_index_sorted (source self))) as (r & -> & Hr & Hlow & Hhigh).
  assert (1 <= r).
  { destruct (Z.le_gt_cases 1 r) as [|Hr0]; [done|].
    pose proof (Hhigh 0%nat 0 (line_index_head _)). lia. }
  destruct (lookup_lt_is_Some_2 (line_index (source self)) (Z.to_nat (r - 1)))
    as [begin Hb]; [unfold len in Hr; lia|].
  exists (Z.to_nat (r - 1)), begin. split; [done|].
  split; [apply (Hlow _ _ Hb); lia|]. split.
  - intros j v Hv Hle. destruct (Z.le_gt_cases r (Z.of_nat j)) as [Hj|Hj]; [|lia].
    pose proof (Hhigh j v Hv Hj). lia.
  - cbn. rewrite bool_decide_true by lia.
    rewrite (getitem_nonneg _ (r - 1) begin) by (done || lia). cbn.
    do 2 f_equal. lia.
Qed.

Lemma Buffer_decompose_position_invalid self offset :
  Buffer_wf self -> offset < 0 \/ offset > len (source self) ->
  fst (Buffer_decompose_position self offset) = Raise IndexError.
Proof.
  intros Hwf Ho. rewrite Buffer_decompose_position_eq by done. cbn [fst].
  destruct (bisect_right_splits (line_index (source self)) offset
              (line_index_sorted (source self))) as (r & -> & _).
  cbn. by rewrite bool_decide_false by lia.
Qed.

(** Slices whose bounds lie inside the sequence. *)
Lemma slice_inside {A} (s : list A) (i j : Z) :
  0 <= i <= len s -> 0 <= j <= len s ->
  slice s (Some i) (Some j) = take (Z.to_nat (j - i)) (drop (Z.to_nat i) s).
Proof. intros Hi Hj. unfold slice; simpl. by rewrite !adjust_index_id. Qed.

Lemma slice_to_end {A} (s : list A) (i : Z) :
  0 <= i <= len s -> slice s (Some i) None = drop (Z.to_nat i) s.
Proof.
  intros Hi. unfold slice; simpl. rewrite adjust_index_id by done.
  apply take_ge. rewrite length_drop. unfold len in *. lia.
Qed.

Lemma slice_pair {A} (s : list A) (i : Z) x y :
  0 <= i -> s !! Z.to_nat i = Some x -> s !! S (Z.to_nat i) = Some y ->
  slice s (Some i) (Some (i + 2)) = [x; y].
Proof.
  intros Hi Hx Hy. pose proof (lookup_lt_Some _ _ _ Hy) as Hlen.
  rewrite slice_inside by (unfold len; lia).
  rewrite (drop_S _ _ _ Hx), (drop_S _ _ _ Hy).
  by replace (Z.to_nat (i + 2 - i)) with 2%nat by lia.
Qed.

Lemma getitem_last {A} (s : list A) x :
  s !! pred (length s) = Some x -> getitem s (-1) = Ok x.
Proof.
  intros Hx. pose proof (lookup_lt_Some _ _ _ Hx) as Hlen.
  unfold getitem, len. simpl.
  destruct (Z.ltb_spec (-1 + Z.of_nat (length s)) 0); [lia|].
  by replace (Z.to_nat (-1 + Z.of_nat (length s))) with (pred (length s)) by lia;
    rewrite Hx.
Qed.

(** Every entry of the line index is an offset of the source; an entry
    other than the first comes just after a newline. *)
Lemma line_index_after_newline src (i : nat) q :
  line_index src !! S i = Some q ->
  1 <= q <= len src /\ src !! Z.to_nat (q - 1) = Some newline /\
  count_newlines (take (Z.to_nat (q - 1)) src) = i.
Proof.
  rewrite line_index_eq. simpl. rewrite list_lookup_fmap.
  destruct (newline_offsets src 0 !! i) as [p|] eqn:E; [|done].
  intros [= <-]. apply newline_offsets_lookup in E as (H1 & H2 & H3).
  replace (p - 0) with p in * by lia.
  replace (Z.succ p - 1) with p by lia.
  pose proof (lookup_lt_Some _ _ _ H2). unfold len. repeat split; try done; lia.
Qed.

Lemma line_index_bounds src (i : nat) q :
  line_index src !! i = Some q -> 0 <= q <= len src.
Proof.
  destruct i as [|i].
  - rewrite line_index_head. intros [= <-]. unfold len. lia.
  - intros H%line_index_after_newline. lia.
Qed.

(** A line before the last one. *)
Lemma Buffer_source_line_inner self lineno :
  Buffer_wf self ->
  0 <= lineno - first_line self ->
  lineno - first_line self + 1 < len (line_index (source self)) ->
  exists first last,
    line_index (source self) !! Z.to_nat (lineno - first_line self)
      = Some first /\
    line_index (source self) !! S (Z.to_nat (lineno - first_line self))
      = Some last /\
    0 <= first < last /\ last <= len (source self) /\
    fst (Buffer_source_line self lineno) =
      Ok (take (Z.to_nat (last - first)) (drop (Z.to_nat first) (source self))).
Proof.
  intros Hwf Hlo Hhi. rewrite Buffer_source_line_eq by done. cbn [fst].
  cbv zeta. set (idx := lineno - first_line self) in *.
  set (lb := line_index (source self)) in *.
  destruct (lookup_lt_is_Some_2 lb (Z.to_nat idx)) as [first Hf];
    [unfold len in Hhi; lia|].
  destruct (lookup_lt_is_Some_2 lb (S (Z.to_nat idx))) as [last Hl];
    [unfold len in Hhi; lia|].
  pose proof (line_index_bounds _ _ _ Hf).
  pose proof (line_index_bounds _ _ _ Hl).
  pose proof (line_index_increasing _ _ _ _ _ Hf Hl).
  exists first, last. repeat split; try done; try lia.
  rewrite bool_decide_true by lia.
  rewrite (slice_pair lb idx first last) by done.
  by rewrite slice_inside by lia.
Qed.

(** The last line. *)
Lemma Buffer_source_line_last self lineno :
  Buffer_wf self ->
  lineno - first_line self + 1 = len (line_index (source self)) ->
  exists first,
    line_index (source self) !! Z.to_nat (lineno - first_line self)
      = Some first /\
    0 <= first <= len (source self) /\
    fst (Buffer_source_line self lineno) =
      Ok (drop (Z.to_nat first) (source self)).
Proof.
  intros Hwf Hidx. rewrite Buffer_source_line_eq by done. cbn [fst].
  cbv zeta. set (idx := lineno - first_line self) in *.
  set (lb := line_index (source self)) in *.
  assert (Hlen : (0 < length lb)%nat).
  { subst lb. rewrite line_index_length. lia. }
  destruct (lookup_lt_is_Some_2 lb (Z.to_nat idx)) as [first Hf];
    [unfold len in Hidx; lia|].
  pose proof (line_index_bounds _ _ _ Hf).
  exists first. repeat split; try done; try lia.
  rewrite bool_decide_false by lia.
  rewrite bool_decide_true by (unfold len in *; lia).
  rewrite (getitem_last lb first).
  - cbn. by rewrite slice_to_end.
  - rewrite <- Hf. f_equal. unfold len in Hidx. lia.
Qed.

(** No such line. *)
Lemma Buffer_source_line_outside self lineno :
  Buffer_wf self ->
  lineno - first_line self < 0 \/
    len (line_index (source self)) <= lineno - first_line self ->
  fst (Buffer_source_line self lineno) = Raise IndexError.
Proof.
  intros Hwf Hidx. rewrite Buffer_source_line_eq by done. cbn [fst].
  cbv zeta. by rewrite !bool_decide_false by lia.
Qed.

(** ** The sort of the edits *)

Section SortFacts.
Context {A : Type} (key : A -> Z).

Lemma insert_by_Permutation x l : Permutation (insert_by key x l) (x :: l).
Proof.
  induction l as [|y l IH]; simpl; [done|].
  destruct (key x <=? key y); [done|].
  rewrite IH. apply perm_swap.
Qed.

Lemma sort_by_Permutation l : Permutation (sort_by key l) l.
Proof.
  induction l as [|x l IH]; simpl; [done|].
  by rewrite insert_by_Permutation, IH.
Qed.

Lemma insert_by_Sorted x l :
  Sorted (λ a b, key a <= key b) l ->
  Sorted (λ a b, key a <= key b) (insert_by key x l).
Proof.
  induction 1 as [|y l Hl IH Hy]; simpl; [by repeat constructor|].
  destruct (Z.leb_spec (key x) (key y)).
  - by repeat constructor.
  - constructor; [done|]. destruct Hy as [|z l Hz]; simpl.
    + constructor. lia.
    + destruct (key x <=? key z); constructor; lia.
Qed.

Lemma sort_by_Sorted l : Sorted (λ a b, key a <= key b) (sort_by key l).
Proof.
  induction l as [|x l IH]; simpl; [constructor|by apply insert_by_Sorted].
Qed.

(** Stability: the elements of any one key keep their order. *)
Lemma insert_by_stable k x l :
  Forall (λ y, key y = k -> key x <= key y) l ->
  filter (λ y, key y = k) (insert_by key x l) =
  filter (λ y, key y = k) (x :: l).
Proof.
  induction l as [|y l IH]; intros Hl; simpl; [done|].
  destruct (Z.leb_spec (key x) (key y)) as [|Hlt]; [done|].
  apply Forall_cons in Hl as [Hy Hl].
  rewrite (filter_cons _ y), IH by done. rewrite !filter_cons.
  destruct (decide (key y = k)) as [Ey|]; [|done].
  destruct (decide (key x = k)) as [Ex|]; [|done]. lia.
Qed.

Lemma sort_by_stable k l :
  filter (λ y, key y = k) (sort_by key l) = filter (λ y, key y = k) l.
Proof.
  induction l as [|x l IH]; simpl; [done|].
  destruct (decide (key x = k)) as [Ex|Hx].
  - rewrite insert_by_stable, !filter_cons, IH; [done|].
    apply Forall_forall. intros y _ Ey. lia.
  - assert (Hins : forall l', filter (λ y, key y = k) (insert_by key x l') =
                              filter (λ y, key y = k) l').
    { induction l' as [|y l' IH']; simpl.
      - by rewrite filter_cons, decide_False.
      - destruct (key x <=? key y).
        + by rewrite filter_cons, decide_False.
        + by rewrite !(filter_cons _ y), IH'. }
    by rewrite Hins, filter_cons, decide_False.
Qed.

(** A list sorted by [key] is determined by the elements of each key, in
    their order: a stable sort has one possible outcome, [sort_by]. *)
Lemma sorted_stable_unique l1 : forall l2,
  Sorted (λ a b, key a <= key b) l1 -> Sorted (λ a b, key a <= key b) l2 ->
  (forall k, filter (λ y, key y = k) l1 = filter (λ y, key y = k) l2) ->
  l1 = l2.
Proof.
  assert (Htrans : Transitive (λ a b : A, key a <= key b))
    by (intros a b c; lia).
  induction l1 as [|x l1 IH]; intros l2 H1 H2 Hf.
  - destruct l2 as [|y l2]; [done|]. specialize (Hf (key y)).
    by rewrite filter_nil, filter_cons, decide_True in Hf.
  - destruct l2 as [|y l2].
    { specialize (Hf (key x)).
      by rewrite filter_nil, filter_cons, decide_True in Hf. }
    apply Sorted_StronglySorted in H1 as S1; [|done].
    apply Sorted_StronglySorted in H2 as S2; [|done].
    apply StronglySorted_inv in S1 as [S1 Hx], S2 as [S2 Hy].
    rewrite Forall_forall in Hx, Hy.
    assert (Hxy : key x <= key y).
    { assert (Hin : y ∈ x :: l1).
      { eapply (list_elem_of_filter (λ z, key z = key y)).
        rewrite (Hf (key y)), filter_cons, decide_True by done. left. }
      apply elem_of_cons in Hin as [->|Hin]; [lia|by apply Hx]. }
    assert (Hyx : key y <= key x).
    { assert (Hin : x ∈ y :: l2).
      { eapply (list_elem_of_filter (λ z, key z = key x)).
        rewrite <- (Hf (key x)), filter_cons, decide_True by done. left. }
      apply elem_of_cons in Hin as [->|Hin]; [lia|by apply Hy]. }
    assert (Hk : key x = key y) by lia.
    pose proof (Hf (key x)) as Hfx.
    rewrite !filter_cons, !decide_True in Hfx by done.
    injection Hfx as -> Hfx. f_equal.
    apply IH; [by eapply Sorted_inv|by eapply Sorted_inv|].
    intros k. destruct (decide (key y = k)) as [<-|Hne]; [done|].
    specialize (Hf k). by rewrite !filter_cons, !decide_False in Hf.
Qed.

Lemma sort_by_unique l l' :
  Sorted (λ a b, key a <= key b) l' ->
  (forall k, filter (λ y, key y = k) l' = filter (λ y, key y = k) l) ->
  l' = sort_by key l.
Proof.
  intros Hs Hf. apply sorted_stable_unique; [done|apply sort_by_Sorted|].
  intros k. by rewrite sort_by_stable.
Qed.

End SortFacts.

(** ** [Rewriter.rewrite] *)

Lemma slice_tail {A} (l : list A) : slice l (Some 1) None = drop 1 l.
Proof.
  destruct l as [|x l]; [done|].
  unfold slice, bound, adjust_index, len. cbn [length].
  destruct (Z.ltb_spec 1 0); [lia|].
  destruct (Z.leb_spec (Z.of_nat (S (length l))) 1).
  - destruct l; [done|]. cbn [length] in *. lia.
  - change (Z.to_nat 1) with 1%nat. cbn [drop]. rewrite drop_0.
    apply take_ge. lia.
Qed.

Lemma adjacent_cons {A} (l : list A) z x y :
  adjacent (z :: l) x y <->
  (z = x /\ l !! 0%nat = Some y) \/ adjacent l x y.
Proof.
  split.
  - intros ([|i] & H1 & H2); simpl in *.
    + left. split; congruence.
    + right. by exists i.
  - intros [[-> H]|(i & H1 & H2)]; [by exists 0%nat|by exists (S i)].
Qed.

Lemma RewriterConflict__init__raises first second :
  RewriterConflict__init__ first second = Raise (NameError "exception").
Proof. reflexivity. Qed.

(** What the scan of [_check] answers: nothing when no two consecutive
    edits overlap; at an overlap, the exception that the construction of
    the [RewriterConflict] raises. *)
Lemma check_loop_cases (l : list edit) :
  (check_loop (zip l (drop 1 l)) = Ok () /\ adjacent_disjoint l) \/
  (check_loop (zip l (drop 1 l)) = Raise (NameError "exception") /\
   exists e1 e2, adjacent l e1 e2 /\ overlap e1 e2).
Proof.
  induction l as [|e1 l IH]; [left; split; [done|by intros ?? ([|?] & ? & ?)]|].
  destruct l as [|e2 l].
  { left; split; [done|]. by intros ?? ([|?] & ? & ?). }
  change (zip (e1 :: e2 :: l) (drop 1 (e1 :: e2 :: l)))
    with ((e1, e2) :: zip (e2 :: l) (drop 1 (e2 :: l))).
  destruct e1 as [r1 t1], e2 as [r2 t2]. cbn [check_loop].
  case_bool_decide as Hov.
  - right. split; [done|]. exists (r1, t1), (r2, t2). split; [by exists 0%nat|done].
  - destruct IH as [[E Hd]|[E (e1 & e2 & Ha & Ho)]].
    + left. split; [done|]. intros e1 e2 [[<- [= <-]]|Ha]%adjacent_cons; [done|].
      by apply Hd.
    + right. split; [done|]. exists e1, e2. split; [|done].
      apply adjacent_cons. by right.
Qed.

Lemma Rewriter__check_cases self :
  (Rewriter__check self = Ok () /\ adjacent_disjoint (ranges self)) \/
  (Rewriter__check self = Raise (NameError "exception") /\
   exists e1 e2, adjacent (ranges self) e1 e2 /\ overlap e1 e2).
Proof. unfold Rewriter__check. rewrite slice_tail. apply check_loop_cases. Qed.

(** The loop of [rewrite] builds the splice. *)
Lemma rewrite_loop_splice src edits : forall rewritten pos,
  join (fst (fold_left (rewrite_step src) edits (rewritten, pos))
          ++ [slice src (Some (snd (fold_left (rewrite_step src) edits
                                      (rewritten, pos)))) None]) =
  join rewritten ++ splice src pos edits.
Proof.
  unfold join. induction edits as [|[range replacement] edits IH];
    intros rewritten pos; simpl.
  - rewrite concat_app. cbn [concat]. by rewrite app_nil_r.
  - rewrite IH, !concat_app. cbn [concat]. by rewrite !app_nil_r, <- !app_assoc.
Qed.

(** [rewrite] when the check passes. *)
Lemma Rewriter_rewrite_ok self h b :
  h !! buffer self = Some b ->
  adjacent_disjoint (sorted_edits self) ->
  Rewriter_rewrite self h =
    Some (Ok (fresh (dom h)), Rewriter__sort self,
          <[fresh (dom h) :=
              Buffer__init__ (splice (source b) 0 (sorted_edits self))
                (name b) (first_line b)]> h).
Proof.
  intros Hb Hd. unfold Rewriter_rewrite.
  destruct (Rewriter__check_cases (Rewriter__sort self))
    as [[-> _]|[_ (e1 & e2 & Ha & Ho)]]; [|by destruct (Hd e1 e2)].
  change (buffer (Rewriter__sort self)) with (buffer self). rewrite Hb. simpl.
  pose proof (rewrite_loop_splice (source b) (sorted_edits self) [] 0) as E.
  unfold sorted_edits in *.
  destruct (fold_left _ _ _) as [rewritten pos]. simpl in E. by rewrite E.
Qed.

(** [rewrite] when the check finds an overlap. *)
Lemma Rewriter_rewrite_overlap self h e1 e2 :
  adjacent (sorted_edits self) e1 e2 -> overlap e1 e2 ->
  Rewriter_rewrite self h =
    Some (Raise (NameError "exception"), Rewriter__sort self, h).
Proof.
  intros Ha Ho. unfold Rewriter_rewrite.
  destruct (Rewriter__check_cases (Rewriter__sort self))
    as [[_ Hd]|[-> _]]; [by destruct (Hd e1 e2)|done].
Qed.

(** ** The properties of [Buffer] *)

(** C4. For every source text (the empty text and a text without newline
    included), the line index that [_extract_line_begins] returns begins
    with 0, is strictly increasing, and has one element more than the
    source has newline characters, so it is [[0]] when there is none; its
    element [i+1] is the offset just past the [i]-th newline: a newline is
    at the offset before it, and [i] newlines come before that one. *)
Theorem line_begins_invariant (self : Buffer) :
  Buffer_wf self ->
  let line_begins := fst (Buffer__extract_line_begins self) in
  line_begins !! 0%nat = Some 0 /\
  (forall (i j : nat) x y,
     line_begins !! i = Some x -> line_begins !! j = Some y ->
     (i < j)%nat -> x < y) /\
  length line_begins = S (count_newlines (source self)) /\
  (count_newlines (source self) = 0%nat -> line_begins = [0]) /\
  (forall (i : nat) q,
     line_begins !! S i = Some q ->
     1 <= q <= len (source self) /\
     source self !! Z.to_nat (q - 1) = Some newline /\
     count_newlines (take (Z.to_nat (q - 1)) (source self)) = i).
Proof.
  intros Hwf. rewrite Buffer__extract_line_begins_eq by done. cbn [fst].
  split; [apply line_index_head|].
  split; [apply line_index_increasing|].
  split; [apply line_index_length|].
  split; [|apply line_index_after_newline].
  intros Hnone. pose proof (line_index_length (source self)) as Hlen.
  pose proof (line_index_head (source self)) as Hhd.
  destruct (line_index (source self)) as [|x [|y l]]; simpl in *; try lia.
  by injection Hhd as ->.
Qed.

Lemma line_begins_invariant_witness :
  Buffer_wf (Buffer_default three_lines) /\
  let line_begins :=
    fst (Buffer__extract_line_begins (Buffer_default three_lines)) in
  line_begins !! 0%nat = Some 0 /\
  (forall (i j : nat) x y,
     line_begins !! i = Some x -> line_begins !! j = Some y ->
     (i < j)%nat -> x < y) /\
  length line_begins = S (count_newlines three_lines) /\
  (count_newlines three_lines = 0%nat -> line_begins = [0]) /\
  (forall (i : nat) q,
     line_begins !! S i = Some q ->
     1 <= q <= len three_lines /\
     three_lines !! Z.to_nat (q - 1) = Some newline /\
     count_newlines (take (Z.to_nat (q - 1)) three_lines) = i).
Proof.
  split; [exact I|].
  exact (line_begins_invariant (Buffer_default three_lines) I).
Defined.

(** C3. For every buffer and every offset [o] with [0 <= o <= len(source)],
    [decompose_position(o)] returns a pair [(line, column)] with
    [line_begins[line - first_line] + column == o]. *)
Theorem decompose_position_reconstructs (self : Buffer) (o : Z) :
  Buffer_wf self -> 0 <= o <= len (source self) ->
  exists line column begin,
    fst (Buffer_decompose_position self o) = Ok (line, column) /\
    0 <= line - first_line self /\
    fst (Buffer__extract_line_begins self)
      !! Z.to_nat (line - first_line self) = Some begin /\
    begin + column = o.
Proof.
  intros Hwf Ho.
  destruct (Buffer_decompose_position_valid self o Hwf Ho)
    as (i & begin & Hb & _ & _ & E).
  exists (Z.of_nat i + first_line self), (o - begin), begin.
  rewrite Buffer__extract_line_begins_eq by done. cbn [fst].
  replace (Z.of_nat i + first_line self - first_line self) with (Z.of_nat i)
    by lia.
  rewrite Nat2Z.id. repeat split; try done; lia.
Qed.

Lemma decompose_position_reconstructs_witness :
  Buffer_wf (Buffer_default three_lines) /\
  0 <= 4 <= len (source (Buffer_default three_lines)) /\
  exists line column begin,
    fst (Buffer_decompose_position (Buffer_default three_lines) 4)
      = Ok (line, column) /\
    0 <= line - first_line (Buffer_default three_lines) /\
    fst (Buffer__extract_line_begins (Buffer_default three_lines))
      !! Z.to_nat (line - first_line (Buffer_default three_lines))
      = Some begin /\
    begin + column = 4.
Proof.
  split; [exact I|]. split; [by vm_compute|].
  apply (decompose_position_reconstructs (Buffer_default three_lines) 4);
    [exact I|by vm_compute].
Defined.

(** C5. For every buffer, [decompose_position(offset)] raises exactly when
    [offset < 0] or [offset > len(source)], and what it raises then is
    [IndexError]; [offset == len(source)], one past the end, is valid and
    yields a pair. *)
Theorem decompose_position_out_of_range (self : Buffer) (offset : Z) :
  Buffer_wf self ->
  let r := fst (Buffer_decompose_position self offset) in
  ((exists e, r = Raise e) <-> offset < 0 \/ offset > len (source self)) /\
  (forall e, r = Raise e -> e = IndexError) /\
  (offset = len (source self) -> exists line column, r = Ok (line, column)).
Proof.
  intros Hwf r. subst r.
  destruct (decide (0 <= offset <= len (source self))) as [Hin|Hout].
  - destruct (Buffer_decompose_position_valid self offset Hwf Hin)
      as (i & begin & _ & _ & _ & ->).
    split; [split; [by intros [e ?]|lia]|]. split; [done|]. eauto.
  - rewrite Buffer_decompose_position_invalid by (done || lia).
    split; [split; [lia|eauto]|]. split; [by intros e [= <-]|].
    intros ->. unfold len in Hout. lia.
Qed.

Lemma decompose_position_out_of_range_witness :
  Buffer_wf (Buffer_default three_lines) /\
  let r := fst (Buffer_decompose_position (Buffer_default three_lines) 9) in
  ((exists e, r = Raise e) <-> 9 < 0 \/ 9 > len three_lines) /\
  (forall e, r = Raise e -> e = IndexError) /\
  (9 = len three_lines -> exists line column, r = Ok (line, column)).
Proof.
  split; [exact I|].
  exact (decompose_position_out_of_range (Buffer_default three_lines) 9 I).
Defined.

(** C6. For every buffer, [source_line(lineno)], with the zero-based index
    [lineno - first_line]: for a line before the last one, it returns the
    source from that line's start up to the next line's start (so with the
    newline that ends the line); for the last line, the source from that
    line's start to the end; and it raises [IndexError] when the index is
    negative or not below the number of lines.  On ["ab\ncd\nef"] with the
    default [first_line], lines 1, 2 and 3 are ["ab\n"], ["cd\n"] and
    ["ef"]. *)
Theorem source_line_spec (self : Buffer) (lineno : Z) :
  Buffer_wf self ->
  let line_begins := fst (Buffer__extract_line_begins self) in
  let index := lineno - first_line self in
  let r := fst (Buffer_source_line self lineno) in
  (0 <= index -> index + 1 < len line_begins ->
   exists first last,
     line_begins !! Z.to_nat index = Some first /\
     line_begins !! S (Z.to_nat index) = Some last /\
     0 <= first < last /\ last <= len (source self) /\
     r = Ok (take (Z.to_nat (last - first))
               (drop (Z.to_nat first) (source self))) /\
     source self !! Z.to_nat (last - 1) = Some newline) /\
  (index + 1 = len line_begins ->
   exists first,
     line_begins !! Z.to_nat index = Some first /\
     0 <= first <= len (source self) /\
     r = Ok (drop (Z.to_nat first) (source self))) /\
  (index < 0 \/ len line_begins <= index -> r = Raise IndexError) /\
  fst (Buffer_source_line (Buffer_default three_lines) 1)
    = Ok (str "ab" ++ [newline]) /\
  fst (Buffer_source_line (Buffer_default three_lines) 2)
    = Ok (str "cd" ++ [newline]) /\
  fst (Buffer_source_line (Buffer_default three_lines) 3) = Ok (str "ef").
Proof.
  intros Hwf. rewrite Buffer__extract_line_begins_eq by done. cbn [fst].
  cbv zeta. split; [|split; [|split; [|by vm_compute]]].
  - intros Hlo Hhi.
    destruct (Buffer_source_line_inner self lineno Hwf Hlo Hhi)
      as (first & last & Hf & Hl & H1 & H2 & E).
    exists first, last. repeat split; try done; try lia.
    by apply line_index_after_newline in Hl as (_ & ? & _).
  - intros Hidx.
    destruct (Buffer_source_line_last self lineno Hwf Hidx)
      as (first & Hf & H1 & E).
    by exists first.
  - by apply Buffer_source_line_outside.
Qed.

Lemma source_line_spec_witness :
  Buffer_wf (Buffer_default three_lines) /\
  let self := Buffer_default three_lines in
  let line_begins := fst (Buffer__extract_line_begins self) in
  let index := 2 - first_line self in
  let r := fst (Buffer_source_line self 2) in
  (0 <= index -> index + 1 < len line_begins ->
   exists first last,
     line_begins !! Z.to_nat index = Some first /\
     line_begins !! S (Z.to_nat index) = Some last /\
     0 <= first < last /\ last <= len (source self) /\
     r = Ok (take (Z.to_nat (last - first))
               (drop (Z.to_nat first) (source self))) /\
     source self !! Z.to_nat (last - 1) = Some newline) /\
  (index + 1 = len line_begins ->
   exists first,
     line_begins !! Z.to_nat index = Some first /\
     0 <= first <= len (source self) /\
     r = Ok (drop (Z.to_nat first) (source self))) /\
  (index < 0 \/ len line_begins <= index -> r = Raise IndexError) /\
  fst (Buffer_source_line (Buffer_default three_lines) 1)
    = Ok (str "ab" ++ [newline]) /\
  fst (Buffer_source_line (Buffer_default three_lines) 2)
    = Ok (str "cd" ++ [newline]) /\
  fst (Buffer_source_line (Buffer_default three_lines) 3) = Ok (str "ef").
Proof.
  split; [exact I|].
  exact (source_line_spec (Buffer_default three_lines) 2 I).
Defined.

(** The scenario of the specification: offset 3 of ["ab\ncd\nef"] is the
    [c], at line 2, column 0. *)
Example decompose_position_scenario :
  fst (Buffer_decompose_position (Buffer_default three_lines) 3) = Ok (2, 0).
Proof. reflexivity. Qed.

(** ** The properties of [Range] *)

Lemma Range__eq__spec a b : Range__eq__ a b = true <-> a = b.
Proof.
  unfold Range__eq__. destruct a, b; simpl.
  rewrite !andb_true_iff, !bool_decide_eq_true. split.
  - by intros [[-> ->] ->].
  - by intros [= -> -> ->].
Qed.

(** C7. For ranges [a] and [b] of one buffer, [a.join(b)] is the range of
    that buffer from the smaller [begin_pos] to the larger [end_pos]; so
    [a.join(b) == b.join(a)] and [a.join(a) == a]; for ranges of two
    buffers, [join] raises [ValueError]. *)
Theorem Range_join_spec (a b : Range) :
  (source_buffer a = source_buffer b ->
   Range_join a b =
     Ok (mkRange (source_buffer a)
           (Z.min (begin_pos a) (begin_pos b))
           (Z.max (end_pos a) (end_pos b))) /\
   exists ab ba,
     Range_join a b = Ok ab /\ Range_join b a = Ok ba /\
     Range__eq__ ab ba = true) /\
  (exists aa, Range_join a a = Ok aa /\ Range__eq__ aa a = true) /\
  (source_buffer a <> source_buffer b -> Range_join a b = Raise ValueError).
Proof.
  unfold Range_join. split; [|split].
  - intros E. rewrite !bool_decide_false by (rewrite E; tauto).
    split; [done|]. eexists _, _. split; [done|]. split; [done|].
    apply Range__eq__spec. rewrite E. f_equal; lia.
  - rewrite bool_decide_false by tauto. eexists. split; [done|].
    apply Range__eq__spec. destruct a; simpl. f_equal; lia.
  - intros Hne. by rewrite bool_decide_true.
Qed.

(** The scenario of the specification:
    [Range(buf, 0, 2).join(Range(buf, 5, 7)) == Range(buf, 0, 7)]. *)
Example Range_join_scenario :
  Range_join (mkRange 1 0 2) (mkRange 1 5 7) = Ok (mkRange 1 0 7).
Proof. reflexivity. Qed.

(** C9 fails as stated: on ["abcde"], [Range(buf, 3, -1)] has
    [begin_pos > end_pos], and its source is ["d"], since the offset [-1]
    counts from the end of the text. *)
Lemma inverted_source_nonempty : ~ inverted_source_empty.
Proof.
  intros H.
  specialize (H abcde_heap (Buffer_default (str "abcde")) (mkRange 1 3 (-1))).
  discriminate H; [done|by vm_compute].
Qed.

(** C9, amended. Constructing a range with [begin_pos > end_pos] does not
    fail; [size()] is [end_pos - begin_pos], a negative number; [source()]
    does not fail, and is the empty string when the two offsets are both
    non-negative or both negative. *)
Theorem Range_inverted (h : heap) (buf : loc) (b : Buffer) (bp ep : Z) :
  h !! buf = Some b -> bp > ep ->
  exists r,
    Range__init__ buf bp ep = Ok r /\
    source_buffer r = buf /\ begin_pos r = bp /\ end_pos r = ep /\
    Range_size r = ep - bp /\ Range_size r < 0 /\
    (exists t, Range_source h r = Some t) /\
    (0 <= ep \/ bp < 0 -> Range_source h r = Some (str "")).
Proof.
  intros Hb Hinv. eexists. split; [done|]. unfold Range_size, Range_source.
  simpl. rewrite Hb. simpl. repeat split; try lia; [eauto|].
  intros Hsign. f_equal. unfold slice, bound, adjust_index.
  assert (0 <= len (source b)) by (unfold len; lia).
  apply length_zero_iff_nil. rewrite length_take.
  repeat case_match; lia.
Qed.

Lemma Range_inverted_witness :
  abcde_heap !! 1%positive = Some (Buffer_default (str "abcde")) /\ 2 > 1 /\
  exists r,
    Range__init__ 1 2 1 = Ok r /\
    source_buffer r = 1%positive /\ begin_pos r = 2 /\ end_pos r = 1 /\
    Range_size r = 1 - 2 /\ Range_size r < 0 /\
    (exists t, Range_source abcde_heap r = Some t) /\
    (0 <= 1 \/ 2 < 0 -> Range_source abcde_heap r = Some (str "")).
Proof.
  split; [done|]. split; [done|].
  apply (Range_inverted abcde_heap 1 (Buffer_default (str "abcde")) 2 1);
    done.
Defined.

(** ** The properties of [Rewriter] *)

Lemma adjust_index_from_end n i : 0 <= n -> adjust_index n i = from_end n i.
Proof.
  intros Hn. unfold adjust_index, from_end.
  case_bool_decide; repeat case_match; lia.
Qed.

Lemma slice_between src (a b : Z) :
  slice src (Some a) (Some b) =
  between src (from_end (len src) a) (from_end (len src) b).
Proof.
  unfold slice, between, bound.
  by rewrite !adjust_index_from_end by (unfold len; lia).
Qed.

Lemma slice_between_end src (a : Z) :
  slice src (Some a) None = between src (from_end (len src) a) (len src).
Proof.
  unfold slice, between, bound.
  by rewrite !adjust_index_from_end by (unfold len; lia).
Qed.

Lemma splice_from_end src edits : forall pos,
  splice src pos edits = splice_with (from_end (len src)) src pos edits.
Proof.
  induction edits as [|[range replacement] edits IH]; intros pos; simpl.
  - apply slice_between_end.
  - by rewrite slice_between, IH.
Qed.

Lemma splice_with_agree f g src edits : forall pos,
  offsets_agree f g pos edits ->
  splice_with f src pos edits = splice_with g src pos edits.
Proof.
  unfold offsets_agree.
  induction edits as [|[range replacement] edits IH]; intros pos [Hp Hall];
    simpl.
  - by rewrite Hp.
  - apply Forall_cons in Hall as [[Hb He] Hall]. simpl in *.
    by rewrite Hp, Hb, (IH (end_pos range)).
Qed.

Lemma sorted_edits_Permutation self :
  Permutation (sorted_edits self) (ranges self).
Proof. apply sort_by_Permutation. Qed.

Lemma pairwise_adjacent_disjoint l :
  pairwise_disjoint l -> adjacent_disjoint l.
Proof. intros H e1 e2 (i & H1 & H2). apply (H i (S i)); [lia|done..]. Qed.

(** What a successful [rewrite] leaves in the store. *)
Lemma rewritten_text_ok self h b :
  h !! buffer self = Some b ->
  adjacent_disjoint (sorted_edits self) ->
  rewritten_text (Rewriter_rewrite self h) =
    Some (splice (source b) 0 (sorted_edits self)).
Proof.
  intros Hb Hd. rewrite (Rewriter_rewrite_ok self h b) by done.
  unfold rewritten_text. by rewrite lookup_insert_eq.
Qed.

Lemma fresh_not_allocated (h : heap) : h !! fresh (dom h) = None.
Proof. apply not_elem_of_dom, is_fresh. Qed.


Lemma from_end_clamp n i : 0 <= n -> 0 <= i -> from_end n i = clamp n i.
Proof. intros Hn Hi. unfold from_end, clamp. case_bool_decide; lia. Qed.

Lemma xy_rewriter_disjoint : pairwise_disjoint (sorted_edits xy_rewriter).
Proof.
  intros [|[|i]] [|[|j]] e1 e2 Hij H1 H2; try lia; try done.
  injection H1 as <-. injection H2 as <-. unfold overlap. simpl. lia.
Qed.

(** C1, at the edits [Range(buf, 0, 5)] and [Range(buf, 3, 8)] on
    ["abcde"]: they are consecutive once sorted and the second begins
    before the first ends, and [rewrite()] raises [NameError] for the name
    [exception], which [RewriterConflict.__init__] evaluates; no
    [RewriterConflict] carrying the pair is raised. *)
Theorem rewrite_overlap_raises_NameError :
  adjacent (sorted_edits overlapping_rewriter)
    (mkRange 1 0 5, str "") (mkRange 1 3 8, str "Z") /\
  overlap (mkRange 1 0 5, str "") (mkRange 1 3 8, str "Z") /\
  Rewriter_rewrite overlapping_rewriter abcde_heap =
    Some (Raise (NameError "exception"), Rewriter__sort overlapping_rewriter,
          abcde_heap) /\
  Rewriter_rewrite overlapping_rewriter abcde_heap <>
    Some (Raise (RewriterConflict (mkRange 1 0 5) (mkRange 1 3 8)),
          Rewriter__sort overlapping_rewriter, abcde_heap).
Proof.
  assert (Ha : adjacent (sorted_edits overlapping_rewriter)
                 (mkRange 1 0 5, str "") (mkRange 1 3 8, str "Z"))
    by (by exists 0%nat).
  assert (Ho : overlap (mkRange 1 0 5, str "") (mkRange 1 3 8, str "Z"))
    by (unfold overlap; simpl; lia).
  split; [done|]. split; [done|].
  rewrite (Rewriter_rewrite_overlap _ abcde_heap _ _ Ha Ho). by split.
Qed.

Lemma xy_edits_disjoint : pairwise_disjoint xy_edits.
Proof.
  intros [|[|i]] [|[|j]] e1 e2 Hij H1 H2; try lia; try done.
  injection H1 as <-. injection H2 as <-. unfold overlap. simpl. lia.
Qed.





(** The edits of [yx_rewriter], recorded as [Range(buf, 3, 5)] then
    [Range(buf, 0, 2)], are spliced in the order of [xy_edits]: the text
    is ["XYc"]. *)
Example yx_rewriter_text :
  rewritten_text (Rewriter_rewrite yx_rewriter abcde_heap)
    = Some (str "XYc").
Proof.
  rewrite (rewritten_text_ok yx_rewriter abcde_heap
             (Buffer_default (str "abcde")) eq_refl); [done|].
  apply pairwise_adjacent_disjoint, xy_edits_disjoint.
Qed.

Lemma touching_rewriter_adjacent e1 e2 :
  adjacent (sorted_edits touching_rewriter) e1 e2 ->
  end_pos (fst e1) <= begin_pos (fst e2).
Proof.
  intros ([|[|i]] & H1 & H2); try done.
  injection H1 as <-. injection H2 as <-. simpl. lia.
Qed.

(** C8. For every rewriter: when each edit, in the order sorted by
    [begin_pos], begins at or after the end of the one before it (at the
    end exactly: touching edits), [rewrite()] raises nothing and returns
    the buffer; and whenever [rewrite()] raises, two consecutive edits
    have the second beginning strictly before the end of the first. *)
Theorem touching_edits_do_not_conflict (self : Rewriter) (h : heap)
  (b : Buffer) :
  h !! buffer self = Some b ->
  ((forall e1 e2, adjacent (sorted_edits self) e1 e2 ->
      end_pos (fst e1) <= begin_pos (fst e2)) ->
   exists new h',
     Rewriter_rewrite self h = Some (Ok new, Rewriter__sort self, h')) /\
  (forall e self' h',
     Rewriter_rewrite self h = Some (Raise e, self', h') ->
     exists e1 e2,
       adjacent (sorted_edits self) e1 e2 /\
       begin_pos (fst e2) < end_pos (fst e1)).
Proof.
  intros Hb. split.
  - intros Htouch. eexists _, _. apply (Rewriter_rewrite_ok self h b Hb).
    intros e1 e2 Ha Ho. specialize (Htouch e1 e2 Ha). unfold overlap in Ho. lia.
  - intros e self' h' E.
    destruct (Rewriter__check_cases (Rewriter__sort self))
      as [[_ Hd]|[_ (e1 & e2 & Ha & Ho)]]; [|by exists e1, e2].
    by rewrite (Rewriter_rewrite_ok self h b Hb Hd) in E.
Qed.

Lemma touching_edits_do_not_conflict_witness :
  abcde_heap !! buffer touching_rewriter
    = Some (Buffer_default (str "abcde")) /\
  (forall e1 e2, adjacent (sorted_edits touching_rewriter) e1 e2 ->
     end_pos (fst e1) <= begin_pos (fst e2)) /\
  (exists new h',
     Rewriter_rewrite touching_rewriter abcde_heap
       = Some (Ok new, Rewriter__sort touching_rewriter, h')) /\
  (forall e self' h',
     Rewriter_rewrite touching_rewriter abcde_heap
       = Some (Raise e, self', h') ->
     exists e1 e2,
       adjacent (sorted_edits touching_rewriter) e1 e2 /\
       begin_pos (fst e2) < end_pos (fst e1)).
Proof.
  split; [reflexivity|]. split; [exact touching_rewriter_adjacent|].
  destruct (touching_edits_do_not_conflict touching_rewriter abcde_heap
              (Buffer_default (str "abcde")) eq_refl) as [Hok Hraise].
  split; [exact (Hok touching_rewriter_adjacent)|exact Hraise].
Defined.

(** The touching edits of [touching_rewriter] give ["ab-CDe"]. *)
Example touching_rewriter_text :
  rewritten_text (Rewriter_rewrite touching_rewriter abcde_heap)
    = Some (str "ab-CDe").
Proof.
  rewrite (rewritten_text_ok touching_rewriter abcde_heap
             (Buffer_default (str "abcde")) eq_refl); [done|].
  intros e1 e2 Ha Ho. apply touching_rewriter_adjacent in Ha.
  unfold overlap in Ho. lia.
Qed.

Lemma single_edit_disjoint self e :
  ranges self = [e] -> adjacent_disjoint (sorted_edits self).
Proof.
  intros E e1 e2 (i & H1 & H2). unfold sorted_edits, Rewriter__sort in *.
  rewrite E in *. by destruct i.
Qed.

Lemma negative_rewriter_disjoint :
  adjacent_disjoint (sorted_edits negative_rewriter).
Proof. by apply (single_edit_disjoint _ (mkRange 1 (-1) (-1), str "X")). Qed.

(** C10 fails as stated: on ["abcde"], [replace(Range(buf, -1, -1), "X")]
    gives ["abcdXe"]: the offset [-1] is read as 4, one before the end;
    clamped, it would be 0, and the text ["Xabcde"]. *)
Lemma rewrite_negative_offset_not_clamped : ~ rewrite_clamps_offsets.
Proof.
  intros H.
  destruct (H negative_rewriter abcde_heap (Buffer_default (str "abcde"))
              eq_refl negative_rewriter_disjoint)
    as (new & h' & E & Ht).
  rewrite (Rewriter_rewrite_ok negative_rewriter abcde_heap
             (Buffer_default (str "abcde")) eq_refl
             negative_rewriter_disjoint) in E.
  injection E as <- <-. rewrite lookup_insert_eq in Ht. discriminate Ht.
Qed.

Lemma foreign_rewriter_disjoint :
  adjacent_disjoint (sorted_edits foreign_rewriter).
Proof. by apply (single_edit_disjoint _ (mkRange 2 7 9, str "!")). Qed.

(** C10, amended. For every rewriter whose edits, sorted by [begin_pos],
    have no consecutive pair with the second beginning strictly before the
    end of the first, [rewrite()] returns a buffer: nothing else makes it
    fail; the buffer of an edit's range is not compared with the
    rewriter's, and the offsets are not checked against the source.  In the
    splice an offset past the end is clamped to the end, and a negative
    offset is counted from the end (and clamped at 0); so the text is the
    splice of clamped offsets when no offset is negative. *)
Theorem rewrite_total (self : Rewriter) (h : heap) (b : Buffer) :
  h !! buffer self = Some b ->
  adjacent_disjoint (sorted_edits self) ->
  exists new h',
    Rewriter_rewrite self h = Some (Ok new, Rewriter__sort self, h') /\
    h !! new = None /\
    source <$> h' !! new =
      Some (splice_with (from_end (len (source b))) (source b) 0
              (sorted_edits self)) /\
    (Forall (λ e : edit, 0 <= begin_pos (fst e) /\ 0 <= end_pos (fst e))
       (ranges self) ->
     source <$> h' !! new =
       Some (splice_with (clamp (len (source b))) (source b) 0
               (sorted_edits self))).
Proof.
  intros Hb Hd. eexists _, _. split; [by apply Rewriter_rewrite_ok|].
  split; [apply fresh_not_allocated|]. rewrite lookup_insert_eq. simpl.
  rewrite splice_from_end. split; [done|]. intros Hpos. f_equal.
  assert (0 <= len (source b)) by (unfold len; lia).
  apply splice_with_agree. split; [by apply from_end_clamp|].
  rewrite sorted_edits_Permutation.
  eapply Forall_impl; [exact Hpos|]. intros e [??]; simpl.
  by rewrite !from_end_clamp.
Qed.

Lemma rewrite_total_witness :
  abcde_heap !! buffer foreign_rewriter
    = Some (Buffer_default (str "abcde")) /\
  adjacent_disjoint (sorted_edits foreign_rewriter) /\
  exists new h',
    Rewriter_rewrite foreign_rewriter abcde_heap
      = Some (Ok new, Rewriter__sort foreign_rewriter, h') /\
    abcde_heap !! new = None /\
    source <$> h' !! new =
      Some (splice_with (from_end (len (str "abcde"))) (str "abcde") 0
              (sorted_edits foreign_rewriter)) /\
    (Forall (λ e : edit, 0 <= begin_pos (fst e) /\ 0 <= end_pos (fst e))
       (ranges foreign_rewriter) ->
     source <$> h' !! new =
       Some (splice_with (clamp (len (str "abcde"))) (str "abcde") 0
               (sorted_edits foreign_rewriter))).
Proof.
  split; [reflexivity|]. split; [exact foreign_rewriter_disjoint|].
  apply (rewrite_total foreign_rewriter abcde_heap
           (Buffer_default (str "abcde")) eq_refl
           foreign_rewriter_disjoint).
Defined.

Example foreign_rewriter_text :
  rewritten_text (Rewriter_rewrite foreign_rewriter abcde_heap)
    = Some (str "abcde!").
Proof.
  by rewrite (rewritten_text_ok foreign_rewriter abcde_heap
                (Buffer_default (str "abcde")) eq_refl
                foreign_rewriter_disjoint).
Qed.

Example negative_rewriter_text :
  rewritten_text (Rewriter_rewrite negative_rewriter abcde_heap)
    = Some (str "abcdXe").
Proof.
  by rewrite (rewritten_text_ok negative_rewriter abcde_heap
                (Buffer_default (str "abcde")) eq_refl
                negative_rewriter_disjoint).
Qed.

(** ** Lines and offsets *)

Lemma count_newlines_app s t :
  count_newlines (s ++ t) = (count_newlines s + count_newlines t)%nat.
Proof. unfold count_newlines. by rewrite filter_app, length_app. Qed.

Lemma count_newlines_take_drop (n : nat) s :
  (count_newlines (take n s) + count_newlines (drop n s))%nat
  = count_newlines s.
Proof. by rewrite <- count_newlines_app, take_drop. Qed.

Lemma count_newlines_take_mono (n m : nat) s :
  (n <= m)%nat -> (count_newlines (take n s) <= count_newlines (take m s))%nat.
Proof.
  intros Hnm. replace n with (n `min` m)%nat by lia.
  rewrite <- take_take, <- (count_newlines_take_drop n (take m s)). lia.
Qed.

(** As many newlines come before the start of a line as its index says. *)
Lemma count_newlines_before_line src (i : nat) q :
  line_index src !! i = Some q ->
  count_newlines (take (Z.to_nat q) src) = i.
Proof.
  destruct i as [|i].
  - rewrite line_index_head. by intros [= <-].
  - intros (Hq & Hnl & Hc)%line_index_after_newline.
    replace (Z.to_nat q) with (S (Z.to_nat (q - 1))) by lia.
    rewrite (take_S_r _ _ _ Hnl), count_newlines_app, Hc.
    unfold count_newlines. rewrite filter_cons, decide_True by done.
    simpl. lia.
Qed.

(** The line of a valid offset, by the count of newlines before it. *)
Lemma count_newlines_before_offset src (o : Z) (i : nat) begin :
  0 <= o <= len src ->
  line_index src !! i = Some begin -> begin <= o ->
  (forall (j : nat) v, line_index src !! j = Some v -> v <= o -> (j <= i)%nat) ->
  count_newlines (take (Z.to_nat o) src) = i.
Proof.
  intros Ho Hb Hle Hmax.
  pose proof (count_newlines_before_line src i begin Hb) as Hi.
  pose proof (line_index_bounds _ _ _ Hb) as Hbb.
  pose proof (count_newlines_take_mono (Z.to_nat begin) (Z.to_nat o) src).
  assert ((count_newlines (take (Z.to_nat o) src) <= i)%nat); [|lia].
  destruct (line_index src !! S i) as [next|] eqn:Hn.
  - assert (o < next).
    { destruct (Z.lt_ge_cases o next) as [|Hge]; [done|].
      pose proof (Hmax (S i) next Hn). lia. }
    apply line_index_after_newline in Hn as (Hq & _ & Hc).
    rewrite <- Hc. apply count_newlines_take_mono. lia.
  - apply lookup_ge_None in Hn. rewrite line_index_length in Hn.
    pose proof (lookup_lt_Some _ _ _ Hb) as Hlt.
    rewrite line_index_length in Hlt.
    pose proof (count_newlines_take_drop (Z.to_nat o) src). lia.
Qed.

(** X1. For a valid offset, [decompose_position] returns the line
    [first_line + k], where [k] is the number of newline characters before
    the offset, and a column that is not negative; the line begins at or
    before the offset, and the next line, if any, begins after it. *)
Theorem decompose_position_counts_newlines (self : Buffer) (o : Z) :
  Buffer_wf self -> 0 <= o <= len (source self) ->
  exists column begin,
    fst (Buffer_decompose_position self o) =
      Ok (first_line self
            + Z.of_nat (count_newlines (take (Z.to_nat o) (source self))),
          column) /\
    0 <= column /\ begin + column = o /\
    line_index (source self)
      !! count_newlines (take (Z.to_nat o) (source self)) = Some begin /\
    (forall next,
       line_index (source self)
         !! S (count_newlines (take (Z.to_nat o) (source self))) = Some next ->
       o < next).
Proof.
  intros Hwf Ho.
  destruct (Buffer_decompose_position_valid self o Hwf Ho)
    as (i & begin & Hb & Hle & Hmax & E).
  rewrite (count_newlines_before_offset _ o i begin Ho Hb Hle Hmax).
  exists (o - begin), begin. rewrite E.
  split; [f_equal; f_equal; lia|]. split; [lia|]. split; [lia|].
  split; [done|]. intros next Hn.
  destruct (Z.lt_ge_cases o next) as [|Hge]; [done|].
  pose proof (Hmax (S i) next Hn). lia.
Qed.

Lemma decompose_position_counts_newlines_witness :
  Buffer_wf (Buffer_default three_lines) /\
  0 <= 4 <= len (source (Buffer_default three_lines)) /\
  exists column begin,
    fst (Buffer_decompose_position (Buffer_default three_lines) 4) =
      Ok (first_line (Buffer_default three_lines)
            + Z.of_nat (count_newlines
                          (take (Z.to_nat 4)
                             (source (Buffer_default three_lines)))),
          column) /\
    0 <= column /\ begin + column = 4 /\
    line_index (source (Buffer_default three_lines))
      !! count_newlines (take (Z.to_nat 4)
                           (source (Buffer_default three_lines)))
      = Some begin /\
    (forall next,
       line_index (source (Buffer_default three_lines))
         !! S (count_newlines (take (Z.to_nat 4)
                                 (source (Buffer_default three_lines))))
         = Some next ->
       4 < next).
Proof.
  split; [exact I|]. split; [by vm_compute|].
  apply (decompose_position_counts_newlines (Buffer_default three_lines) 4);
    [exact I|by vm_compute].
Defined.

(** X2. [decompose_position] is monotone: of two valid offsets, the
    larger is on a later line, or on the same line at a column that is
    not smaller. *)
Theorem decompose_position_monotone (self : Buffer) (o1 o2 : Z) :
  Buffer_wf self -> 0 <= o1 -> o1 <= o2 -> o2 <= len (source self) ->
  exists line1 column1 line2 column2,
    fst (Buffer_decompose_position self o1) = Ok (line1, column1) /\
    fst (Buffer_decompose_position self o2) = Ok (line2, column2) /\
    (line1 < line2 \/ (line1 = line2 /\ column1 <= column2)).
Proof.
  intros Hwf H1 H12 H2.
  destruct (Buffer_decompose_position_valid self o1 Hwf)
    as (i1 & b1 & Hb1 & Hle1 & Hmax1 & E1); [lia|].
  destruct (Buffer_decompose_position_valid self o2 Hwf)
    as (i2 & b2 & Hb2 & Hle2 & Hmax2 & E2); [lia|].
  eexists _, _, _, _. split; [exact E1|]. split; [exact E2|].
  assert (Hi : (i1 <= i2)%nat) by (apply (Hmax2 i1 b1 Hb1); lia).
  destruct (decide (i1 = i2)) as [->|Hne]; [|lia].
  right. rewrite Hb1 in Hb2. injection Hb2 as ->. lia.
Qed.

Lemma decompose_position_monotone_witness :
  Buffer_wf (Buffer_default three_lines) /\ 0 <= 2 /\ 2 <= 7 /\
  7 <= len (source (Buffer_default three_lines)) /\
  exists line1 column1 line2 column2,
    fst (Buffer_decompose_position (Buffer_default three_lines) 2)
      = Ok (line1, column1) /\
    fst (Buffer_decompose_position (Buffer_default three_lines) 7)
      = Ok (line2, column2) /\
    (line1 < line2 \/ (line1 = line2 /\ column1 <= column2)).
Proof.
  split; [exact I|]. split; [lia|]. split; [lia|]. split; [by vm_compute|].
  apply (decompose_position_monotone (Buffer_default three_lines) 2 7);
    [exact I|lia|lia|by vm_compute].
Defined.

(** X3. The way back from a line and a column: when line [i] of the line
    index begins at [begin], and [begin + c] is an offset of the source
    before the start of the next line (if there is one), then
    [decompose_position(begin + c)] is [(first_line + i, c)]. *)
Theorem decompose_position_of_line_column (self : Buffer) (i : nat)
  (begin c : Z) :
  Buffer_wf self ->
  line_index (source self) !! i = Some begin ->
  0 <= c -> begin + c <= len (source self) ->
  (forall next, line_index (source self) !! S i = Some next ->
     begin + c < next) ->
  fst (Buffer_decompose_position self (begin + c))
    = Ok (first_line self + Z.of_nat i, c).
Proof.
  intros Hwf Hb Hc Hlen Hnext.
  pose proof (line_index_bounds _ _ _ Hb) as Hbb.
  destruct (Buffer_decompose_position_valid self (begin + c) Hwf)
    as (i' & b' & Hb' & Hle' & Hmax' & E); [lia|].
  assert (Hi : (i <= i')%nat) by (apply (Hmax' i begin Hb); lia).
  assert (i' = i) as ->.
  { destruct (decide (i' = i)) as [|Hne]; [done|exfalso].
    destruct (lookup_lt_is_Some_2 (line_index (source self)) (S i))
      as [next Hn].
    { pose proof (lookup_lt_Some _ _ _ Hb'). lia. }
    pose proof (Hnext next Hn).
    pose proof (line_index_sorted _ (S i) i' next b' Hn Hb'). lia. }
  rewrite Hb in Hb'. injection Hb' as <-. rewrite E. do 2 f_equal; lia.
Qed.

Lemma decompose_position_of_line_column_witness :
  Buffer_wf (Buffer_default three_lines) /\
  line_index (source (Buffer_default three_lines)) !! 1%nat = Some 3 /\
  0 <= 2 /\ 3 + 2 <= len (source (Buffer_default three_lines)) /\
  (forall next,
     line_index (source (Buffer_default three_lines)) !! 2%nat = Some next ->
     3 + 2 < next) /\
  fst (Buffer_decompose_position (Buffer_default three_lines) (3 + 2))
    = Ok (first_line (Buffer_default three_lines) + Z.of_nat 1, 2).
Proof.
  assert (Hnext : forall next,
    line_index (source (Buffer_default three_lines)) !! 2%nat = Some next ->
    3 + 2 < next)
    by (intros next H; change (Some 6 = Some next) in H;
        injection H as <-; lia).
  split; [exact I|]. split; [reflexivity|]. split; [lia|].
  split; [by vm_compute|]. split; [exact Hnext|].
  apply (decompose_position_of_line_column (Buffer_default three_lines)
           1 3 2 I eq_refl); [lia|by vm_compute|exact Hnext].
Defined.

(** The line that [decompose_position] names exists: [source_line]
    returns it, and it holds the character of the offset at the column. *)
Lemma Buffer_source_line_of_offset (self : Buffer) (o : Z) :
  Buffer_wf self -> 0 <= o <= len (source self) ->
  exists line column txt,
    fst (Buffer_decompose_position self o) = Ok (line, column) /\
    fst (Buffer_source_line (snd (Buffer_decompose_position self o)) line)
      = Ok txt /\
    0 <= column /\
    (o < len (source self) ->
     txt !! Z.to_nat column = source self !! Z.to_nat o).
Proof.
  intros Hwf Ho.
  destruct (Buffer_decompose_position_wf self o Hwf) as (Hwf1 & Hs & _ & Hf).
  set (self1 := snd (Buffer_decompose_position self o)) in *.
  destruct (Buffer_decompose_position_valid self o Hwf)
    as (i & begin & Hb & Hle & Hmax & E); [lia|].
  pose proof (line_index_bounds _ _ _ Hb) as Hbb.
  exists (Z.of_nat i + first_line self), (o - begin). rewrite E.
  assert (Hidx : Z.of_nat i + first_line self - first_line self1 = Z.of_nat i)
    by lia.
  destruct (line_index (source self) !! S i) as [next|] eqn:Hn.
  - assert (o < next).
    { destruct (Z.lt_ge_cases o next) as [|Hge]; [done|].
      pose proof (Hmax (S i) next Hn). lia. }
    destruct (Buffer_source_line_inner self1
                (Z.of_nat i + first_line self) Hwf1)
      as (first & last & Hfi & Hla & _ & _ & Et).
    { lia. }
    { rewrite Hidx, Hs. pose proof (lookup_lt_Some _ _ _ Hn).
      unfold len. lia. }
    rewrite Hidx, Nat2Z.id, Hs in Hfi, Hla.
    rewrite Hb in Hfi. rewrite Hn in Hla.
    injection Hfi as <-. injection Hla as <-.
    eexists. split; [done|]. split; [exact Et|]. split; [lia|].
    intros _. rewrite Hs, lookup_take_lt, lookup_drop by lia.
    f_equal. lia.
  - apply lookup_ge_None in Hn. pose proof (lookup_lt_Some _ _ _ Hb).
    destruct (Buffer_source_line_last self1
                (Z.of_nat i + first_line self) Hwf1)
      as (first & Hfi & _ & Et).
    { rewrite Hidx, Hs. unfold len. lia. }
    rewrite Hidx, Nat2Z.id, Hs, Hb in Hfi. injection Hfi as <-.
    eexists. split; [done|]. split; [exact Et|]. split; [lia|].
    intros _. rewrite Hs, lookup_drop. f_equal. lia.
Qed.

(** X4. A character is found again through its line and column: for an
    offset [o] of a character of the source, with
    [(line, column) = decompose_position(o)], [source_line(line)] succeeds
    and its character at [column] is the character of the source at
    [o]. *)
Theorem source_line_at_column (self : Buffer) (o : Z) :
  Buffer_wf self -> 0 <= o < len (source self) ->
  exists line column txt,
    fst (Buffer_decompose_position self o) = Ok (line, column) /\
    fst (Buffer_source_line (snd (Buffer_decompose_position self o)) line)
      = Ok txt /\
    0 <= column /\
    txt !! Z.to_nat column = source self !! Z.to_nat o /\
    is_Some (source self !! Z.to_nat o).
Proof.
  intros Hwf Ho.
  destruct (Buffer_source_line_of_offset self o Hwf)
    as (line & column & txt & E1 & E2 & Hc & Hch); [lia|].
  exists line, column, txt. repeat split; try done; [apply Hch; lia|].
  apply lookup_lt_is_Some_2. unfold len in Ho. lia.
Qed.

Lemma source_line_at_column_witness :
  Buffer_wf (Buffer_default three_lines) /\
  0 <= 4 < len (source (Buffer_default three_lines)) /\
  exists line column txt,
    fst (Buffer_decompose_position (Buffer_default three_lines) 4)
      = Ok (line, column) /\
    fst (Buffer_source_line
           (snd (Buffer_decompose_position (Buffer_default three_lines) 4))
           line) = Ok txt /\
    0 <= column /\
    txt !! Z.to_nat column
      = source (Buffer_default three_lines) !! Z.to_nat 4 /\
    is_Some (source (Buffer_default three_lines) !! Z.to_nat 4).
Proof.
  split; [exact I|]. split; [by vm_compute|].
  apply (source_line_at_column (Buffer_default three_lines) 4);
    [exact I|by vm_compute].
Defined.

Lemma count_newlines_zero s : count_newlines s = 0%nat <-> newline ∉ s.
Proof.
  unfold count_newlines. induction s as [|x s IH].
  { split; [intros _; apply not_elem_of_nil|done]. }
  rewrite filter_cons, not_elem_of_cons. destruct (decide (x = newline)).
  - simpl. split; [lia|]. by intros [??].
  - rewrite IH. split; [done|]. by intros [??].
Qed.

(** X5. Where the newlines of a line are: when [source_line(lineno)]
    returns a text, the index [lineno - first_line] is one of the line
    index; a line before the last one is a text without newline followed
    by one newline, and the last line contains no newline. *)
Theorem source_line_newlines (self : Buffer) (lineno : Z) (txt : text) :
  Buffer_wf self ->
  fst (Buffer_source_line self lineno) = Ok txt ->
  0 <= lineno - first_line self < len (line_index (source self)) /\
  (lineno - first_line self + 1 < len (line_index (source self)) ->
   exists body, txt = body ++ [newline] /\ newline ∉ body) /\
  (lineno - first_line self + 1 = len (line_index (source self)) ->
   newline ∉ txt).
Proof.
  intros Hwf E. set (idx := lineno - first_line self).
  assert (Hidx : 0 <= idx < len (line_index (source self))).
  { destruct (decide (0 <= idx < len (line_index (source self))));
      [done|exfalso].
    rewrite Buffer_source_line_outside in E by (done || subst idx; lia).
    done. }
  split; [done|]. split.
  - intros Hinner.
    destruct (Buffer_source_line_inner self lineno Hwf)
      as (first & last & Hf & Hl & H1 & H2 & Et); [subst idx; lia..|].
    rewrite Et in E. injection E as <-.
    pose proof (count_newlines_before_line _ _ _ Hf) as Cf.
    pose proof (count_newlines_before_line _ _ _ Hl) as Cl.
    apply line_index_after_newline in Hl as (_ & Hnl & _).
    set (n := Z.to_nat (last - first - 1)).
    exists (take n (drop (Z.to_nat first) (source self))).
    assert (Hlast : drop (Z.to_nat first) (source self) !! n = Some newline).
    { rewrite lookup_drop, <- Hnl. f_equal. subst n. lia. }
    replace (Z.to_nat (last - first)) with (S n) by (subst n; lia).
    rewrite (take_S_r _ _ _ Hlast). split; [done|].
    apply count_newlines_zero.
    assert (Hsplit : take (Z.to_nat last) (source self) =
              take (Z.to_nat first) (source self)
                ++ take n (drop (Z.to_nat first) (source self)) ++ [newline]).
    { rewrite <- (take_S_r _ _ _ Hlast), take_take_drop.
      f_equal. subst n. lia. }
    rewrite Hsplit, !count_newlines_app, Cf in Cl.
    change (count_newlines [newline]) with 1%nat in Cl. lia.
  - intros Hlastline.
    destruct (Buffer_source_line_last self lineno Hwf)
      as (first & Hf & H1 & Et); [subst idx; lia|].
    rewrite Et in E. injection E as <-.
    pose proof (count_newlines_before_line _ _ _ Hf) as Cf.
    pose proof (count_newlines_take_drop (Z.to_nat first) (source self)).
    pose proof (line_index_length (source self)).
    apply count_newlines_zero. unfold len in Hlastline. subst idx. lia.
Qed.

Lemma source_line_newlines_witness :
  Buffer_wf (Buffer_default three_lines) /\
  fst (Buffer_source_line (Buffer_default three_lines) 2)
    = Ok (str "cd" ++ [newline]) /\
  0 <= 2 - first_line (Buffer_default three_lines)
    < len (line_index (source (Buffer_default three_lines))) /\
  (2 - first_line (Buffer_default three_lines) + 1
     < len (line_index (source (Buffer_default three_lines))) ->
   exists body, str "cd" ++ [newline] = body ++ [newline] /\ newline ∉ body) /\
  (2 - first_line (Buffer_default three_lines) + 1
     = len (line_index (source (Buffer_default three_lines))) ->
   newline ∉ str "cd" ++ [newline]).
Proof.
  split; [exact I|]. split; [reflexivity|].
  exact (source_line_newlines (Buffer_default three_lines) 2
           (str "cd" ++ [newline]) I eq_refl).
Defined.

Lemma pieces_lookup src cuts : forall i : nat,
  pieces src cuts !! i =
    c ← cuts !! i;
    Some match cuts !! S i with
         | None => drop (Z.to_nat c) src
         | Some c' => take (Z.to_nat (c' - c)) (drop (Z.to_nat c) src)
         end.
Proof.
  induction cuts as [|c cuts IH]; intros i; [done|].
  destruct i as [|i]; [by destruct cuts|]. apply IH.
Qed.

Lemma concat_pieces src cuts : forall c,
  0 <= c ->
  (forall (i j : nat) x y,
     (c :: cuts) !! i = Some x -> (c :: cuts) !! j = Some y ->
     (i <= j)%nat -> x <= y) ->
  concat (pieces src (c :: cuts)) = drop (Z.to_nat c) src.
Proof.
  induction cuts as [|c' cuts IH]; intros c Hc Hs.
  - simpl. by rewrite app_nil_r.
  - pose proof (Hs 0%nat 1%nat c c' eq_refl eq_refl).
    change (concat (pieces src (c :: c' :: cuts))) with
      (take (Z.to_nat (c' - c)) (drop (Z.to_nat c) src)
         ++ concat (pieces src (c' :: cuts))).
    rewrite IH; [|lia|].
    + rewrite <- (take_drop (Z.to_nat (c' - c)) (drop (Z.to_nat c) src))
        at 2.
      rewrite drop_drop. do 2 f_equal. lia.
    + intros i j x y Hx Hy Hij. apply (Hs (S i) (S j) x y); [done..|lia].
Qed.

(** X6. The lines make up the source: [source_line] succeeds on each line
    number from [first_line] to [first_line] plus the number of newlines of
    the source, and the texts it returns, in this order, concatenate to the
    source. *)
Theorem source_lines_concat (self : Buffer) :
  Buffer_wf self ->
  exists lines,
    all_lines self = map Ok lines /\
    length lines = S (count_newlines (source self)) /\
    concat lines = source self.
Proof.
  intros Hwf. exists (pieces (source self) (line_index (source self))).
  assert (Hlen : length (pieces (source self) (line_index (source self)))
                 = length (line_index (source self))).
  { generalize (line_index (source self)).
    induction l as [|??]; simpl; congruence. }
  split; [|split].
  - apply list_eq. intros i. unfold all_lines.
    rewrite !list_lookup_fmap, pieces_lookup.
    destruct (decide (i < length (line_index (source self)))%nat)
      as [Hi|Hi].
    + rewrite lookup_seq_lt by done. cbn [fmap option_fmap option_map].
      destruct (lookup_lt_is_Some_2 _ _ Hi) as [c Hc]. rewrite Hc. simpl.
      f_equal.
      assert (Hidx : first_line self + Z.of_nat i - first_line self
                     = Z.of_nat i) by lia.
      destruct (line_index (source self) !! S i) as [c'|] eqn:Hc'.
      * destruct (Buffer_source_line_inner self
                    (first_line self + Z.of_nat i) Hwf)
          as (first & last & Hf & Hl & _ & _ & Et).
        { lia. }
        { pose proof (lookup_lt_Some _ _ _ Hc'). unfold len. lia. }
        rewrite Hidx, Nat2Z.id in Hf, Hl. rewrite Hc in Hf. rewrite Hc' in Hl.
        injection Hf as <-. by injection Hl as <-.
      * apply lookup_ge_None in Hc'.
        destruct (Buffer_source_line_last self
                    (first_line self + Z.of_nat i) Hwf)
          as (first & Hf & _ & Et).
        { unfold len. lia. }
        rewrite Hidx, Nat2Z.id, Hc in Hf. by injection Hf as <-.
    + rewrite lookup_seq_ge by lia.
      assert (line_index (source self) !! i = None) as ->
        by (apply lookup_ge_None; lia).
      done.
  - by rewrite Hlen, line_index_length.
  - rewrite line_index_eq. rewrite concat_pieces; [done|lia|].
    rewrite <- line_index_eq. apply line_index_sorted.
Qed.

Lemma source_lines_concat_witness :
  Buffer_wf (Buffer_default three_lines) /\
  exists lines,
    all_lines (Buffer_default three_lines) = map Ok lines /\
    length lines = S (count_newlines (source (Buffer_default three_lines))) /\
    concat lines = source (Buffer_default three_lines).
Proof.
  split; [exact I|].
  exact (source_lines_concat (Buffer_default three_lines) I).
Defined.

(** X7. The cached line index does not show: after a first call of
    [decompose_position] or [source_line] on a buffer, its cache holds the
    line index; both methods leave the buffer in this same state; and
    from then on each method leaves the buffer as it is and returns what
    it would have returned on the buffer as it was before the first
    call. *)
Theorem line_index_cache_transparent (self : Buffer) (o lineno : Z) :
  Buffer_wf self ->
  let self' := snd (Buffer_decompose_position self o) in
  _line_begins self' = Some (line_index (source self)) /\
  snd (Buffer_source_line self lineno) = self' /\
  forall o' lineno',
    Buffer_decompose_position self' o'
      = (fst (Buffer_decompose_position self o'), self') /\
    Buffer_source_line self' lineno'
      = (fst (Buffer_source_line self lineno'), self').
Proof.
  intros Hwf self'.
  assert (Hself : self' = snd (Buffer__extract_line_begins self))
    by (subst self'; by rewrite Buffer_decompose_position_eq).
  destruct (Buffer__extract_line_begins_wf self Hwf) as (Hwf' & Hs & _ & Hf).
  rewrite <- Hself in Hwf', Hs, Hf.
  assert (Hcache : _line_begins self' = Some (line_index (source self))).
  { rewrite Hself, Buffer__extract_line_begins_eq by done. simpl.
    unfold Buffer_wf in Hwf.
    destruct (_line_begins self) as [[|x l]|] eqn:Ec; simpl; try done.
    by rewrite Ec, Hwf. }
  assert (Hfix : snd (Buffer__extract_line_begins self') = self').
  { unfold Buffer__extract_line_begins. rewrite Hcache.
    pose proof (line_index_length (source self)).
    by destruct (line_index (source self)). }
  split; [done|]. split; [by rewrite Buffer_source_line_eq|].
  intros o' lineno'.
  rewrite (Buffer_decompose_position_eq self'),
    (Buffer_source_line_eq self'), (Buffer_decompose_position_eq self),
    (Buffer_source_line_eq self) by done.
  by rewrite Hfix, Hs, Hf.
Qed.

Lemma line_index_cache_transparent_witness :
  Buffer_wf (Buffer_default three_lines) /\
  let self' :=
    snd (Buffer_decompose_position (Buffer_default three_lines) 4) in
  _line_begins self'
    = Some (line_index (source (Buffer_default three_lines))) /\
  snd (Buffer_source_line (Buffer_default three_lines) 2) = self' /\
  forall o' lineno',
    Buffer_decompose_position self' o'
      = (fst (Buffer_decompose_position (Buffer_default three_lines) o'),
         self') /\
    Buffer_source_line self' lineno'
      = (fst (Buffer_source_line (Buffer_default three_lines) lineno'),
         self').
Proof.
  split; [exact I|].
  exact (line_index_cache_transparent (Buffer_default three_lines) 4 2 I).
Defined.

(** ** Ranges: [join], [begin] and [end] *)

(** X8. [join] is associative, errors included: joining [a] with [b] and
    the outcome with [c] gives what joining [a] with the join of [b] and
    [c] gives, a range or [ValueError]. *)
Theorem Range_join_assoc (a b c : Range) :
  (ab ← Range_join a b; Range_join ab c)
  = (bc ← Range_join b c; Range_join a bc).
Proof.
  unfold Range_join.
  destruct (decide (source_buffer a = source_buffer b)) as [Eab|Nab],
    (decide (source_buffer b = source_buffer c)) as [Ebc|Nbc].
  - rewrite !bool_decide_false by tauto. cbn.
    rewrite !bool_decide_false by (rewrite ?Eab, ?Ebc; tauto).
    by rewrite Z.min_assoc, Z.max_assoc.
  - rewrite (bool_decide_false _ (λ H, H Eab)),
      (bool_decide_true _ Nbc). cbn.
    by rewrite bool_decide_true by (rewrite Eab; done).
  - rewrite (bool_decide_true _ Nab), (bool_decide_false _ (λ H, H Ebc)).
    cbn. by rewrite bool_decide_true.
  - by rewrite (bool_decide_true _ Nab), (bool_decide_true _ Nbc).
Qed.

(** X9. [join] returns the smallest range that spans both: the range it
    returns is over the buffer of the two, begins at or before each and
    ends at or after each, and any bounds that span both span it. *)
Theorem Range_join_smallest (a b r : Range) :
  Range_join a b = Ok r ->
  source_buffer r = source_buffer a /\ source_buffer r = source_buffer b /\
  begin_pos r <= begin_pos a /\ begin_pos r <= begin_pos b /\
  end_pos a <= end_pos r /\ end_pos b <= end_pos r /\
  forall lo hi,
    lo <= begin_pos a -> lo <= begin_pos b ->
    end_pos a <= hi -> end_pos b <= hi ->
    lo <= begin_pos r /\ end_pos r <= hi.
Proof.
  unfold Range_join. case_bool_decide as Hbuf; [done|].
  intros [= <-]. simpl. repeat split; try done; lia.
Qed.

Lemma Range_join_smallest_witness :
  Range_join (mkRange 1 0 2) (mkRange 1 5 7) = Ok (mkRange 1 0 7) /\
  source_buffer (mkRange 1 0 7) = source_buffer (mkRange 1 0 2) /\
  source_buffer (mkRange 1 0 7) = source_buffer (mkRange 1 5 7) /\
  begin_pos (mkRange 1 0 7) <= begin_pos (mkRange 1 0 2) /\
  begin_pos (mkRange 1 0 7) <= begin_pos (mkRange 1 5 7) /\
  end_pos (mkRange 1 0 2) <= end_pos (mkRange 1 0 7) /\
  end_pos (mkRange 1 5 7) <= end_pos (mkRange 1 0 7) /\
  forall lo hi,
    lo <= begin_pos (mkRange 1 0 2) -> lo <= begin_pos (mkRange 1 5 7) ->
    end_pos (mkRange 1 0 2) <= hi -> end_pos (mkRange 1 5 7) <= hi ->
    lo <= begin_pos (mkRange 1 0 7) /\ end_pos (mkRange 1 0 7) <= hi.
Proof.
  split; [reflexivity|].
  exact (Range_join_smallest (mkRange 1 0 2) (mkRange 1 5 7) (mkRange 1 0 7)
           eq_refl).
Defined.

(** X10. The two ends of a range: [begin()] and [end()] have size 0;
    joining them never fails, and gives back the range exactly when its
    [begin_pos] is not past its [end_pos] (otherwise the range with the
    two offsets exchanged). *)
Theorem Range_begin_end_join (r : Range) :
  Range_size (Range_begin r) = 0 /\ Range_size (Range_end r) = 0 /\
  exists j,
    Range_join (Range_begin r) (Range_end r) = Ok j /\
    (Range__eq__ j r = true <-> begin_pos r <= end_pos r) /\
    (end_pos r < begin_pos r ->
     j = mkRange (source_buffer r) (end_pos r) (begin_pos r)).
Proof.
  unfold Range_size, Range_join, Range_begin, Range_end. simpl.
  split; [lia|]. split; [lia|].
  rewrite bool_decide_false by tauto. eexists. split; [done|].
  rewrite Range__eq__spec. destruct r as [buf b e]; simpl. split.
  - split; [intros [= ??]; lia|intros ?; f_equal; lia].
  - intros ?. f_equal; lia.
Qed.

(** ** The rewriter: order of the edits *)

(** X11. What [_sort] does to the edits: the buffer is kept; the edits
    are the same, rearranged; they are in non-decreasing order of
    [begin_pos]; the edits of any one [begin_pos] keep the order in which
    they were recorded; and no other arrangement has these properties. *)
Theorem Rewriter__sort_contract (self : Rewriter) :
  buffer (Rewriter__sort self) = buffer self /\
  Permutation (ranges (Rewriter__sort self)) (ranges self) /\
  Sorted (λ e1 e2 : edit, begin_pos (fst e1) <= begin_pos (fst e2))
    (ranges (Rewriter__sort self)) /\
  (forall k,
     filter (λ e : edit, begin_pos (fst e) = k) (ranges (Rewriter__sort self))
     = filter (λ e : edit, begin_pos (fst e) = k) (ranges self)) /\
  (forall l' : list edit,
     Sorted (λ e1 e2 : edit, begin_pos (fst e1) <= begin_pos (fst e2)) l' ->
     (forall k,
        filter (λ e : edit, begin_pos (fst e) = k) l'
        = filter (λ e : edit, begin_pos (fst e) = k) (ranges self)) ->
     l' = ranges (Rewriter__sort self)).
Proof.
  unfold Rewriter__sort. simpl. split; [done|].
  split; [apply sort_by_Permutation|]. split; [apply sort_by_Sorted|].
  split; [intros k; apply sort_by_stable|].
  intros l' Hs Hf. by apply sort_by_unique.
Qed.

Lemma sort_by_idempotent {A} (key : A -> Z) (l : list A) :
  sort_by key (sort_by key l) = sort_by key l.
Proof. symmetry. apply sort_by_unique; [apply sort_by_Sorted|done]. Qed.

Lemma Rewriter_rewrite_sort_eq self1 self2 h :
  Rewriter__sort self1 = Rewriter__sort self2 ->
  Rewriter_rewrite self1 h = Rewriter_rewrite self2 h.
Proof. intros E. unfold Rewriter_rewrite. by rewrite E. Qed.

(** X12. A rewriter can be used again: after a [rewrite()] that returned
    a buffer, a second [rewrite()] of the same rewriter returns another
    new buffer with the same text, leaves the rewriter as the first call
    left it, and does not touch the buffer that the first call
    returned. *)
Theorem rewrite_twice (self : Rewriter) (h : heap) (b : Buffer) :
  h !! buffer self = Some b ->
  adjacent_disjoint (sorted_edits self) ->
  exists new1 self1 h1 new2 h2,
    Rewriter_rewrite self h = Some (Ok new1, self1, h1) /\
    Rewriter_rewrite self1 h1 = Some (Ok new2, self1, h2) /\
    new2 <> new1 /\
    is_Some (h1 !! new1) /\
    h2 !! new1 = h1 !! new1 /\
    source <$> h2 !! new2 = source <$> h1 !! new1.
Proof.
  intros Hb Hd.
  assert (Hss : Rewriter__sort (Rewriter__sort self) = Rewriter__sort self).
  { unfold Rewriter__sort. simpl. by rewrite sort_by_idempotent. }
  set (new1 := fresh (dom h)).
  set (h1 := <[new1 := Buffer__init__
                         (splice (source b) 0 (sorted_edits self))
                         (name b) (first_line b)]> h).
  assert (Hne : buffer self <> new1).
  { intros E. pose proof (fresh_not_allocated h) as Hf.
    fold new1 in Hf. rewrite <- E, Hb in Hf. done. }
  assert (Hb1 : h1 !! buffer (Rewriter__sort self) = Some b).
  { subst h1. by rewrite lookup_insert_ne. }
  assert (Hd1 : adjacent_disjoint (sorted_edits (Rewriter__sort self))).
  { unfold sorted_edits. by rewrite Hss. }
  assert (Hnew2 : fresh (dom h1) <> new1).
  { intros E. pose proof (fresh_not_allocated h1) as Hf.
    rewrite E in Hf. subst h1. by rewrite lookup_insert_eq in Hf. }
  exists new1, (Rewriter__sort self), h1, (fresh (dom h1)). eexists.
  split; [by apply Rewriter_rewrite_ok|].
  split.
  { rewrite (Rewriter_rewrite_ok _ h1 b Hb1 Hd1). by rewrite Hss. }
  split; [done|]. split; [subst h1; by rewrite lookup_insert_eq|].
  split; [by rewrite lookup_insert_ne|].
  rewrite lookup_insert_eq. subst h1. rewrite lookup_insert_eq. simpl.
  unfold sorted_edits. by rewrite Hss.
Qed.

Lemma rewrite_twice_witness :
  abcde_heap !! buffer xy_rewriter = Some (Buffer_default (str "abcde")) /\
  adjacent_disjoint (sorted_edits xy_rewriter) /\
  exists new1 self1 h1 new2 h2,
    Rewriter_rewrite xy_rewriter abcde_heap = Some (Ok new1, self1, h1) /\
    Rewriter_rewrite self1 h1 = Some (Ok new2, self1, h2) /\
    new2 <> new1 /\
    is_Some (h1 !! new1) /\
    h2 !! new1 = h1 !! new1 /\
    source <$> h2 !! new2 = source <$> h1 !! new1.
Proof.
  split; [reflexivity|].
  split; [exact (pairwise_adjacent_disjoint _ xy_rewriter_disjoint)|].
  exact (rewrite_twice xy_rewriter abcde_heap (Buffer_default (str "abcde"))
           eq_refl (pairwise_adjacent_disjoint _ xy_rewriter_disjoint)).
Defined.

Lemma filter_key_short {A} (key : A -> Z) (k : Z) (l : list A) :
  NoDup (map key l) -> (length (filter (λ y, key y = k) l) <= 1)%nat.
Proof.
  induction l as [|x l IH]; [simpl; lia|].
  rewrite fmap_cons, NoDup_cons, filter_cons. intros [Hx Hl].
  destruct (decide (key x = k)) as [<-|]; [|by apply IH].
  assert (filter (λ y, key y = key x) l = []) as ->; [|simpl; lia].
  clear IH Hl. induction l as [|y l IH]; [done|].
  rewrite fmap_cons, not_elem_of_cons in Hx. destruct Hx as [Hy Hx].
  by rewrite filter_cons, decide_False, IH.
Qed.

Lemma Permutation_short_eq {A} (l1 l2 : list A) :
  Permutation l1 l2 -> (length l1 <= 1)%nat -> l1 = l2.
Proof.
  destruct l1 as [|x [|y l1]]; simpl; [| |lia].
  - by intros ->%Permutation_nil.
  - by intros ->%Permutation_length_1_inv.
Qed.

(** X13. The order in which edits are recorded does not matter when no
    two of them have the same [begin_pos]: two rewriters of one buffer
    that hold the same edits, in whatever order, get the same outcome
    from [rewrite()]. *)
Theorem rewrite_order_independent (self self' : Rewriter) (h : heap) :
  buffer self' = buffer self ->
  Permutation (ranges self') (ranges self) ->
  NoDup (map (λ e : edit, begin_pos (fst e)) (ranges self)) ->
  Rewriter_rewrite self' h = Rewriter_rewrite self h.
Proof.
  intros Hbuf Hperm Hnd. apply Rewriter_rewrite_sort_eq.
  unfold Rewriter__sort. rewrite Hbuf. f_equal.
  symmetry. apply sort_by_unique; [apply sort_by_Sorted|].
  intros k. rewrite sort_by_stable. symmetry.
  apply Permutation_short_eq; [by rewrite Hperm|].
  rewrite Hperm. by apply filter_key_short.
Qed.

Lemma rewrite_order_independent_witness :
  buffer yx_rewriter = buffer xy_rewriter /\
  Permutation (ranges yx_rewriter) (ranges xy_rewriter) /\
  NoDup (map (λ e : edit, begin_pos (fst e)) (ranges xy_rewriter)) /\
  Rewriter_rewrite yx_rewriter abcde_heap
    = Rewriter_rewrite xy_rewriter abcde_heap.
Proof.
  assert (Hnd : NoDup (map (λ e : edit, begin_pos (fst e))
                         (ranges xy_rewriter)))
    by (change (NoDup [0; 3]); apply NoDup_cons;
        split; [by intros ?%list_elem_of_singleton|apply NoDup_singleton]).
  split; [reflexivity|]. split; [apply perm_swap|]. split; [exact Hnd|].
  exact (rewrite_order_independent xy_rewriter yx_rewriter abcde_heap
           eq_refl (perm_swap _ _ _) Hnd).
Defined.

(** ** The rewriter: what the splice contains *)

Lemma chained_le n l : forall pos, chained n pos l -> pos <= n.
Proof.
  induction l as [|[r t] l IH]; intros pos; simpl; [done|].
  intros (H1 & H2 & H3%IH). lia.
Qed.

Lemma chained_of_disjoint n l : forall pos,
  adjacent_disjoint l ->
  Forall (λ e : edit, begin_pos (fst e) <= end_pos (fst e) /\
                      end_pos (fst e) <= n) l ->
  pos <= n ->
  (forall e, l !! 0%nat = Some e -> pos <= begin_pos (fst e)) ->
  chained n pos l.
Proof.
  induction l as [|[r t] l IH]; intros pos Hd Hall Hpos Hhead; [done|].
  apply Forall_cons in Hall as [[Hbe Hen] Hall]. simpl in *.
  split; [by apply (Hhead (r, t))|]. split; [done|].
  apply IH; [|done|done|].
  - intros e1 e2 Ha. apply Hd, adjacent_cons. by right.
  - intros e He.
    assert (Ha : adjacent ((r, t) :: l) (r, t) e) by (by exists 0%nat).
    apply Hd in Ha. unfold overlap in Ha. simpl in Ha. lia.
Qed.

Lemma removed_Permutation l l' : Permutation l l' -> removed l = removed l'.
Proof. unfold removed. induction 1; simpl; lia. Qed.

Lemma inserted_Permutation l l' : Permutation l l' -> inserted l = inserted l'.
Proof. unfold inserted. induction 1; simpl; lia. Qed.

Lemma len_app {A} (s t : list A) : len (s ++ t) = len s + len t.
Proof. unfold len. rewrite length_app. lia. Qed.

Lemma splice_chained_length src l : forall pos,
  0 <= pos -> chained (len src) pos l ->
  len (splice src pos l) = len src - pos - removed l + inserted l.
Proof.
  induction l as [|[r t] l IH]; intros pos Hpos Hc; simpl in *.
  - rewrite slice_to_end by lia. rewrite len_drop by lia.
    unfold removed, inserted. simpl. lia.
  - destruct Hc as (H1 & H2 & H3). pose proof (chained_le _ _ _ H3).
    rewrite slice_inside by lia. rewrite !len_app, IH by (done || lia).
    unfold len at 1. rewrite length_take, length_drop.
    unfold removed, inserted, Range_size, len. simpl. unfold len in *. lia.
Qed.

Lemma splice_chained_identity src l : forall pos,
  0 <= pos -> chained (len src) pos l ->
  Forall (λ e : edit, snd e = slice src (Some (begin_pos (fst e)))
                                (Some (end_pos (fst e)))) l ->
  splice src pos l = drop (Z.to_nat pos) src.
Proof.
  induction l as [|[r t] l IH]; intros pos Hpos Hc Hall; simpl in *.
  - by rewrite slice_to_end by lia.
  - destruct Hc as (H1 & H2 & H3). pose proof (chained_le _ _ _ H3).
    apply Forall_cons in Hall as [Ht Hall]. simpl in Ht. subst t.
    rewrite !slice_inside, IH by (done || lia).
    rewrite <- (take_drop (Z.to_nat (begin_pos r - pos))
                  (drop (Z.to_nat pos) src)) at 2.
    f_equal. rewrite drop_drop.
    replace (Z.to_nat pos + Z.to_nat (begin_pos r - pos))%nat
      with (Z.to_nat (begin_pos r)) by lia.
    rewrite <- (take_drop (Z.to_nat (end_pos r - begin_pos r))
                  (drop (Z.to_nat (begin_pos r)) src)) at 2.
    f_equal. rewrite drop_drop. f_equal. lia.
Qed.

Lemma sorted_edits_chained self n :
  adjacent_disjoint (sorted_edits self) ->
  Forall (λ e : edit, 0 <= begin_pos (fst e) /\
                      begin_pos (fst e) <= end_pos (fst e) /\
                      end_pos (fst e) <= n) (ranges self) ->
  0 <= n ->
  chained n 0 (sorted_edits self).
Proof.
  intros Hd Hall Hn. rewrite <- sorted_edits_Permutation in Hall.
  apply chained_of_disjoint; [done| |done|].
  - eapply Forall_impl; [exact Hall|]. by intros e (? & ? & ?).
  - intros e He. apply list_elem_of_lookup_2 in He.
    rewrite Forall_forall in Hall. by apply Hall in He as (? & _).
Qed.

(** X14. The length of the rewritten text: when the edits lie in the
    source, each with [begin_pos <= end_pos], and no two consecutive ones
    overlap once sorted, the text that [rewrite()] returns has the length
    of the source, minus the sizes of the ranges, plus the lengths of the
    replacements. *)
Theorem rewrite_length (self : Rewriter) (h : heap) (b : Buffer) :
  h !! buffer self = Some b ->
  adjacent_disjoint (sorted_edits self) ->
  Forall (λ e : edit, 0 <= begin_pos (fst e) /\
                      begin_pos (fst e) <= end_pos (fst e) /\
                      end_pos (fst e) <= len (source b)) (ranges self) ->
  exists txt,
    rewritten_text (Rewriter_rewrite self h) = Some txt /\
    len txt = len (source b) - removed (ranges self) + inserted (ranges self).
Proof.
  intros Hb Hd Hall. eexists. split; [by apply rewritten_text_ok|].
  rewrite splice_chained_length;
    [|done|apply sorted_edits_chained; [done..|unfold len; lia]].
  rewrite (removed_Permutation _ _ (sorted_edits_Permutation self)),
    (inserted_Permutation _ _ (sorted_edits_Permutation self)). lia.
Qed.

Lemma xy_rewriter_inside :
  Forall (λ e : edit, 0 <= begin_pos (fst e) /\
                      begin_pos (fst e) <= end_pos (fst e) /\
                      end_pos (fst e) <= len (str "abcde"))
    (ranges xy_rewriter).
Proof. repeat constructor; simpl; unfold len; simpl; lia. Qed.

Lemma rewrite_length_witness :
  abcde_heap !! buffer xy_rewriter = Some (Buffer_default (str "abcde")) /\
  adjacent_disjoint (sorted_edits xy_rewriter) /\
  Forall (λ e : edit, 0 <= begin_pos (fst e) /\
                      begin_pos (fst e) <= end_pos (fst e) /\
                      end_pos (fst e) <= len (str "abcde"))
    (ranges xy_rewriter) /\
  exists txt,
    rewritten_text (Rewriter_rewrite xy_rewriter abcde_heap) = Some txt /\
    len txt = len (str "abcde") - removed (ranges xy_rewriter)
              + inserted (ranges xy_rewriter).
Proof.
  split; [reflexivity|].
  split; [exact (pairwise_adjacent_disjoint _ xy_rewriter_disjoint)|].
  split; [exact xy_rewriter_inside|].
  exact (rewrite_length xy_rewriter abcde_heap (Buffer_default (str "abcde"))
           eq_refl (pairwise_adjacent_disjoint _ xy_rewriter_disjoint)
           xy_rewriter_inside).
Defined.

(** X15. Replacing ranges by their own source changes nothing: when each
    edit replaces a range of the rewriter's buffer, lying in the source
    with [begin_pos <= end_pos], by what [source()] returns for that
    range, and no two consecutive edits overlap once sorted, the text
    that [rewrite()] returns is the source. *)
Theorem rewrite_own_source (self : Rewriter) (h : heap) (b : Buffer) :
  h !! buffer self = Some b ->
  adjacent_disjoint (sorted_edits self) ->
  Forall (λ e : edit, source_buffer (fst e) = buffer self /\
                      Range_source h (fst e) = Some (snd e) /\
                      0 <= begin_pos (fst e) /\
                      begin_pos (fst e) <= end_pos (fst e) /\
                      end_pos (fst e) <= len (source b)) (ranges self) ->
  rewritten_text (Rewriter_rewrite self h) = Some (source b).
Proof.
  intros Hb Hd Hall. rewrite (rewritten_text_ok self h b) by done. f_equal.
  rewrite splice_chained_identity; [done|done| |].
  - apply sorted_edits_chained; [done| |unfold len; lia].
    eapply Forall_impl; [exact Hall|]. by intros e (_ & _ & ? & ? & ?).
  - rewrite sorted_edits_Permutation.
    eapply Forall_impl; [exact Hall|]. intros e (Hbuf & Hsrc & _).
    unfold Range_source in Hsrc. rewrite Hbuf, Hb in Hsrc.
    by injection Hsrc as <-.
Qed.

Lemma own_source_rewriter_disjoint :
  adjacent_disjoint (sorted_edits own_source_rewriter).
Proof.
  intros e1 e2 ([|[|i]] & H1 & H2); try done.
  injection H1 as <-. injection H2 as <-. unfold overlap. simpl. lia.
Qed.

Lemma own_source_rewriter_edits :
  Forall (λ e : edit, source_buffer (fst e) = buffer own_source_rewriter /\
                      Range_source abcde_heap (fst e) = Some (snd e) /\
                      0 <= begin_pos (fst e) /\
                      begin_pos (fst e) <= end_pos (fst e) /\
                      end_pos (fst e) <= len (str "abcde"))
    (ranges own_source_rewriter).
Proof. repeat constructor; simpl; unfold len; simpl; lia. Qed.

Lemma rewrite_own_source_witness :
  abcde_heap !! buffer own_source_rewriter
    = Some (Buffer_default (str "abcde")) /\
  adjacent_disjoint (sorted_edits own_source_rewriter) /\
  Forall (λ e : edit, source_buffer (fst e) = buffer own_source_rewriter /\
                      Range_source abcde_heap (fst e) = Some (snd e) /\
                      0 <= begin_pos (fst e) /\
                      begin_pos (fst e) <= end_pos (fst e) /\
                      end_pos (fst e) <= len (str "abcde"))
    (ranges own_source_rewriter) /\
  rewritten_text (Rewriter_rewrite own_source_rewriter abcde_heap)
    = Some (str "abcde").
Proof.
  split; [reflexivity|]. split; [exact own_source_rewriter_disjoint|].
  split; [exact own_source_rewriter_edits|].
  exact (rewrite_own_source own_source_rewriter abcde_heap
           (Buffer_default (str "abcde")) eq_refl
           own_source_rewriter_disjoint own_source_rewriter_edits).
Defined.

Lemma single_edit_text (l : loc) (h : heap) (b : Buffer) (r : Range)
  (t : text) :
  h !! l = Some b ->
  0 <= begin_pos r <= len (source b) -> 0 <= end_pos r <= len (source b) ->
  rewritten_text (Rewriter_rewrite (Rewriter_replace (Rewriter__init__ l) r t) h)
    = Some (take (Z.to_nat (begin_pos r)) (source b) ++ t
              ++ drop (Z.to_nat (end_pos r)) (source b)).
Proof.
  intros Hb Hbp Hep.
  rewrite (rewritten_text_ok (Rewriter_replace (Rewriter__init__ l) r t) h b
             Hb (single_edit_disjoint
                   (Rewriter_replace (Rewriter__init__ l) r t) (r, t)
                   eq_refl)).
  f_equal. change (sorted_edits (Rewriter_replace (Rewriter__init__ l) r t))
    with [(r, t)]. simpl.
  rewrite slice_inside, slice_to_end by (done || unfold len; lia).
  replace (Z.to_nat (begin_pos r - 0)) with (Z.to_nat (begin_pos r)) by lia.
  by rewrite drop_0.
Qed.

(** X16. A rewriter with one edit, at a range whose offsets lie in the
    source: [replace(range, t)] gives the source up to [begin_pos],
    then [t], then the source from [end_pos] on; [remove(range)] gives
    the same without [t]; [insert_before(range, t)] puts [t] at
    [begin_pos] and [insert_after(range, t)] at [end_pos], and both keep
    the whole source around it. *)
Theorem rewrite_single_edit (l : loc) (h : heap) (b : Buffer) (r : Range)
  (t : text) :
  h !! l = Some b ->
  0 <= begin_pos r <= len (source b) -> 0 <= end_pos r <= len (source b) ->
  rewritten_text
    (Rewriter_rewrite (Rewriter_replace (Rewriter__init__ l) r t) h)
    = Some (take (Z.to_nat (begin_pos r)) (source b) ++ t
              ++ drop (Z.to_nat (end_pos r)) (source b)) /\
  rewritten_text
    (Rewriter_rewrite (Rewriter_remove (Rewriter__init__ l) r) h)
    = Some (take (Z.to_nat (begin_pos r)) (source b)
              ++ drop (Z.to_nat (end_pos r)) (source b)) /\
  rewritten_text
    (Rewriter_rewrite (Rewriter_insert_before (Rewriter__init__ l) r t) h)
    = Some (take (Z.to_nat (begin_pos r)) (source b) ++ t
              ++ drop (Z.to_nat (begin_pos r)) (source b)) /\
  rewritten_text
    (Rewriter_rewrite (Rewriter_insert_after (Rewriter__init__ l) r t) h)
    = Some (take (Z.to_nat (end_pos r)) (source b) ++ t
              ++ drop (Z.to_nat (end_pos r)) (source b)).
Proof.
  intros Hb Hbp Hep. split; [by apply single_edit_text|].
  split; [|split].
  - unfold Rewriter_remove. by rewrite (single_edit_text l h b r).
  - unfold Rewriter_insert_before.
    by rewrite (single_edit_text l h b (Range_begin r)).
  - unfold Rewriter_insert_after.
    by rewrite (single_edit_text l h b (Range_end r)).
Qed.

Lemma rewrite_single_edit_witness :
  abcde_heap !! 1%positive = Some (Buffer_default (str "abcde")) /\
  0 <= begin_pos (mkRange 1 1 3) <= len (str "abcde") /\
  0 <= end_pos (mkRange 1 1 3) <= len (str "abcde") /\
  rewritten_text
    (Rewriter_rewrite
       (Rewriter_replace (Rewriter__init__ 1) (mkRange 1 1 3) (str "-"))
       abcde_heap)
    = Some (take (Z.to_nat 1) (str "abcde") ++ str "-"
              ++ drop (Z.to_nat 3) (str "abcde")) /\
  rewritten_text
    (Rewriter_rewrite (Rewriter_remove (Rewriter__init__ 1) (mkRange 1 1 3))
       abcde_heap)
    = Some (take (Z.to_nat 1) (str "abcde")
              ++ drop (Z.to_nat 3) (str "abcde")) /\
  rewritten_text
    (Rewriter_rewrite
       (Rewriter_insert_before (Rewriter__init__ 1) (mkRange 1 1 3) (str "-"))
       abcde_heap)
    = Some (take (Z.to_nat 1) (str "abcde") ++ str "-"
              ++ drop (Z.to_nat 1) (str "abcde")) /\
  rewritten_text
    (Rewriter_rewrite
       (Rewriter_insert_after (Rewriter__init__ 1) (mkRange 1 1 3) (str "-"))
       abcde_heap)
    = Some (take (Z.to_nat 3) (str "abcde") ++ str "-"
              ++ drop (Z.to_nat 3) (str "abcde")).
Proof.
  split; [reflexivity|]. split; [by vm_compute|]. split; [by vm_compute|].
  apply (rewrite_single_edit 1 abcde_heap (Buffer_default (str "abcde"))
           (mkRange 1 1 3) (str "-") eq_refl); by vm_compute.
Defined.

Lemma sort_by_same_key {A} (key : A -> Z) (k : Z) (l : list A) :
  Forall (λ x, key x = k) l -> sort_by key l = l.
Proof.
  induction 1 as [|x l Hx Hl IH]; simpl; [done|]. rewrite IH.
  destruct Hl as [|y l Hy Hl]; simpl; [done|].
  by rewrite (proj2 (Z.leb_le _ _)) by lia.
Qed.

Lemma splice_same_point src (p : Z) (l : list edit) : forall pos,
  0 <= pos <= p -> p <= len src ->
  Forall (λ e : edit, begin_pos (fst e) = p /\ end_pos (fst e) = p) l ->
  splice src pos l =
    take (Z.to_nat (p - pos)) (drop (Z.to_nat pos) src)
      ++ concat (map snd l) ++ drop (Z.to_nat p) src.
Proof.
  induction l as [|[r t] l IH]; intros pos Hpos Hp Hall.
  - simpl. rewrite slice_to_end by lia.
    rewrite <- (take_drop (Z.to_nat (p - pos)) (drop (Z.to_nat pos) src))
      at 1.
    f_equal. rewrite drop_drop. f_equal. lia.
  - apply Forall_cons in Hall as [[Hb He] Hall]. simpl in Hb, He.
    cbn [splice map concat snd]. rewrite Hb, He, IH by (done || lia).
    rewrite slice_inside by lia. replace (p - p) with 0 by lia.
    by rewrite take_0, <- !app_assoc.
Qed.

(** X17. Insertions at one point come out in the order of the calls:
    when every edit of a rewriter is at the empty range of one offset [p]
    of the source (as [insert_before] and [insert_after] record them),
    [rewrite()] returns the source up to [p], then the inserted texts in
    the order in which they were recorded, then the source from [p]
    on. *)
Theorem rewrite_same_point (self : Rewriter) (h : heap) (b : Buffer)
  (p : Z) :
  h !! buffer self = Some b ->
  0 <= p <= len (source b) ->
  Forall (λ e : edit, begin_pos (fst e) = p /\ end_pos (fst e) = p)
    (ranges self) ->
  rewritten_text (Rewriter_rewrite self h)
    = Some (take (Z.to_nat p) (source b) ++ concat (map snd (ranges self))
              ++ drop (Z.to_nat p) (source b)).
Proof.
  intros Hb Hp Hall.
  assert (Hsorted : sorted_edits self = ranges self).
  { apply (sort_by_same_key _ p).
    eapply Forall_impl; [exact Hall|]. by intros e [? _]. }
  rewrite (rewritten_text_ok self h b Hb).
  - rewrite Hsorted, (splice_same_point _ p) by (done || lia).
    replace (p - 0) with p by lia. by rewrite drop_0.
  - rewrite Hsorted. intros e1 e2 (i & H1 & H2) Ho.
    rewrite Forall_forall in Hall.
    apply list_elem_of_lookup_2, Hall in H1 as [_ H1].
    apply list_elem_of_lookup_2, Hall in H2 as [H2 _].
    unfold overlap in Ho. lia.
Qed.

Lemma rewrite_same_point_witness :
  abcde_heap !! buffer same_point_rewriter
    = Some (Buffer_default (str "abcde")) /\
  0 <= 2 <= len (str "abcde") /\
  Forall (λ e : edit, begin_pos (fst e) = 2 /\ end_pos (fst e) = 2)
    (ranges same_point_rewriter) /\
  rewritten_text (Rewriter_rewrite same_point_rewriter abcde_heap)
    = Some (take (Z.to_nat 2) (str "abcde")
              ++ concat (map snd (ranges same_point_rewriter))
              ++ drop (Z.to_nat 2) (str "abcde")).
Proof.
  assert (Hall : Forall (λ e : edit, begin_pos (fst e) = 2 /\
                                     end_pos (fst e) = 2)
                   (ranges same_point_rewriter))
    by (by repeat constructor).
  split; [reflexivity|]. split; [by vm_compute|]. split; [exact Hall|].
  apply (rewrite_same_point same_point_rewriter abcde_heap
           (Buffer_default (str "abcde")) 2 eq_refl); [by vm_compute|].
  exact Hall.
Defined.

(** The two insertions of [same_point_rewriter] give ["abxycde"]. *)
Example same_point_rewriter_text :
  rewritten_text (Rewriter_rewrite same_point_rewriter abcde_heap)
    = Some (str "abxycde").
Proof.
  rewrite (rewritten_text_ok same_point_rewriter abcde_heap
             (Buffer_default (str "abcde")) eq_refl); [done|].
  intros e1 e2 ([|[|i]] & H1 & H2); try done.
  injection H1 as <-. injection H2 as <-. unfold overlap. simpl. lia.
Qed.

(** ** Ranges: lines and columns *)

(** [line()] and [column()] of a range whose [begin_pos] is valid. *)
Lemma Range_line_column_valid (h : heap) (r : Range) (b : Buffer) :
  h !! source_buffer r = Some b -> Buffer_wf b ->
  0 <= begin_pos r <= len (source b) ->
  exists (i : nat) begin,
    line_index (source b) !! i = Some begin /\
    i = count_newlines (take (Z.to_nat (begin_pos r)) (source b)) /\
    begin <= begin_pos r /\
    Range_line h r =
      Some (Ok (Z.of_nat i + first_line b),
            <[source_buffer r :=
                snd (Buffer_decompose_position b (begin_pos r))]> h) /\
    Range_column h r =
      Some (Ok (begin_pos r - begin),
            <[source_buffer r :=
                snd (Buffer_decompose_position b (begin_pos r))]> h).
Proof.
  intros Hb Hwf Ho.
  destruct (Buffer_decompose_position_valid b (begin_pos r) Hwf Ho)
    as (i & begin & Hi & Hle & Hmax & E).
  exists i, begin. split; [done|].
  split; [by rewrite (count_newlines_before_offset _ _ i begin Ho Hi Hle Hmax)|].
  split; [done|]. unfold Range_line, Range_column. rewrite Hb. simpl.
  destruct (Buffer_decompose_position b (begin_pos r)) as [res b'].
  simpl in E. by rewrite E.
Qed.

(** [line()] and [column()] of a range whose [begin_pos] is not valid. *)
Lemma Range_line_column_invalid (h : heap) (r : Range) (b : Buffer) :
  h !! source_buffer r = Some b -> Buffer_wf b ->
  begin_pos r < 0 \/ begin_pos r > len (source b) ->
  Range_line h r =
    Some (Raise IndexError,
          <[source_buffer r :=
              snd (Buffer_decompose_position b (begin_pos r))]> h) /\
  Range_column h r =
    Some (Raise IndexError,
          <[source_buffer r :=
              snd (Buffer_decompose_position b (begin_pos r))]> h).
Proof.
  intros Hb Hwf Ho.
  pose proof (Buffer_decompose_position_invalid b (begin_pos r) Hwf Ho) as E.
  unfold Range_line, Range_column. rewrite Hb. simpl.
  destruct (Buffer_decompose_position b (begin_pos r)) as [res b'].
  simpl in E. by rewrite E.
Qed.

(** X18. The columns of a range inside one line: when the offsets of a
    range lie in the source, [begin_pos <= end_pos], and the source of the
    range contains no newline, [column_range()] returns the column [c] of
    its beginning, which is not negative, and [c] plus the size of the
    range. *)
Theorem Range_column_range_one_line (h : heap) (r : Range) (b : Buffer)
  (t : text) :
  h !! source_buffer r = Some b -> Buffer_wf b ->
  0 <= begin_pos r -> begin_pos r <= end_pos r ->
  end_pos r <= len (source b) ->
  Range_source h r = Some t -> newline ∉ t ->
  exists c h',
    Range_column_range h r = Some (Ok (c, c + Range_size r), h') /\
    0 <= c /\
    Range_column h r = Some (Ok c, <[source_buffer r :=
      snd (Buffer_decompose_position b (begin_pos r))]> h).
Proof.
  intros Hb Hwf H0 Hbe Hlen Hsrc Hnl.
  unfold Range_source in Hsrc. rewrite Hb in Hsrc. simpl in Hsrc.
  injection Hsrc as <-. rewrite slice_inside in Hnl by lia.
  apply count_newlines_zero in Hnl.
  destruct (Range_line_column_valid h (Range_begin r) b Hb Hwf)
    as (i1 & b1 & Hi1 & Ec1 & Hle1 & _ & E1); [simpl; lia|].
  simpl in Ec1, Hle1, E1.
  set (buf1 := snd (Buffer_decompose_position b (begin_pos r))) in *.
  destruct (Buffer_decompose_position_wf b (begin_pos r) Hwf)
    as (Hwf1 & Hs1 & _ & _). fold buf1 in Hwf1, Hs1.
  set (h1 := <[source_buffer r := buf1]> h) in *.
  assert (Hb1 : h1 !! source_buffer (Range_end r) = Some buf1)
    by (subst h1; simpl; by rewrite lookup_insert_eq).
  destruct (Range_line_column_valid h1 (Range_end r) buf1 Hb1 Hwf1)
    as (i2 & b2 & Hi2 & Ec2 & Hle2 & _ & E2); [simpl; rewrite Hs1; lia|].
  simpl in Ec2, Hle2, E2. rewrite Hs1 in Hi2, Ec2.
  assert (i2 = i1) as ->.
  { rewrite Ec1, Ec2.
    replace (Z.to_nat (end_pos r))
      with (Z.to_nat (begin_pos r) + Z.to_nat (end_pos r - begin_pos r))%nat
      by lia.
    rewrite <- take_take_drop, count_newlines_app, Hnl. lia. }
  rewrite Hi1 in Hi2. injection Hi2 as <-.
  exists (begin_pos r - b1). eexists. unfold Range_column_range.
  rewrite E1. cbn. rewrite E2. cbn.
  split; [|split; [lia|]].
  - replace (begin_pos r - b1 + Range_size r) with (end_pos r - b1)
      by (unfold Range_size; lia).
    reflexivity.
  - destruct (Range_line_column_valid h r b Hb Hwf)
      as (i3 & b3 & Hi3 & Ec3 & _ & _ & E3); [lia|].
    rewrite <- Ec1 in Ec3. subst i3. rewrite Hi1 in Hi3.
    injection Hi3 as <-. exact E3.
Qed.

Lemma Range_column_range_one_line_witness :
  abcde_heap !! source_buffer (mkRange 1 1 3)
    = Some (Buffer_default (str "abcde")) /\
  Buffer_wf (Buffer_default (str "abcde")) /\
  0 <= begin_pos (mkRange 1 1 3) /\
  begin_pos (mkRange 1 1 3) <= end_pos (mkRange 1 1 3) /\
  end_pos (mkRange 1 1 3) <= len (source (Buffer_default (str "abcde"))) /\
  Range_source abcde_heap (mkRange 1 1 3) = Some (str "bc") /\
  (newline ∉ str "bc") /\
  exists c h',
    Range_column_range abcde_heap (mkRange 1 1 3)
      = Some (Ok (c, c + Range_size (mkRange 1 1 3)), h') /\
    0 <= c /\
    Range_column abcde_heap (mkRange 1 1 3)
      = Some (Ok c, <[source_buffer (mkRange 1 1 3) :=
          snd (Buffer_decompose_position (Buffer_default (str "abcde"))
                 (begin_pos (mkRange 1 1 3)))]> abcde_heap).
Proof.
  assert (Hnl : newline ∉ str "bc")
    by (apply count_newlines_zero; reflexivity).
  split; [reflexivity|]. split; [exact I|]. split; [by vm_compute|].
  split; [by vm_compute|]. split; [by vm_compute|]. split; [reflexivity|].
  split; [exact Hnl|].
  apply (Range_column_range_one_line abcde_heap (mkRange 1 1 3)
           (Buffer_default (str "abcde")) (str "bc") eq_refl I);
    [by vm_compute|by vm_compute|by vm_compute|reflexivity|exact Hnl].
Defined.

(** X19. The line of a range: when [begin_pos] is a valid offset of the
    buffer, [Range.source_line()] returns a line (the line number that
    [line()] computes is always one that [Buffer.source_line] accepts),
    and when [begin_pos] is the offset of a character, this character is
    in the line at the column that [column()] returns; when [begin_pos]
    is not a valid offset, [Range.source_line()] raises [IndexError]. *)
Theorem Range_source_line_spec (h : heap) (r : Range) (b : Buffer) :
  h !! source_buffer r = Some b -> Buffer_wf b ->
  (0 <= begin_pos r <= len (source b) ->
   exists txt h' c h1,
     Range_source_line h r = Some (Ok txt, h') /\
     Range_column h r = Some (Ok c, h1) /\
     0 <= c /\
     (begin_pos r < len (source b) ->
      txt !! Z.to_nat c = source b !! Z.to_nat (begin_pos r))) /\
  (begin_pos r < 0 \/ begin_pos r > len (source b) ->
   exists h', Range_source_line h r = Some (Raise IndexError, h')).
Proof.
  intros Hb Hwf. split.
  - intros Ho.
    destruct (Buffer_source_line_of_offset b (begin_pos r) Hwf Ho)
      as (line & column & txt & E1 & E2 & Hc & Hch).
    unfold Range_source_line, Range_line, Range_column. rewrite Hb. simpl.
    destruct (Buffer_decompose_position b (begin_pos r)) as [res b1].
    simpl in E1, E2. subst res. cbn. rewrite lookup_insert_eq. cbn.
    destruct (Buffer_source_line b1 line) as [r2 b2]. simpl in E2. subst r2.
    by eexists txt, _, column, _.
  - intros Ho.
    destruct (Range_line_column_invalid h r b Hb Hwf Ho) as [E _].
    unfold Range_source_line. rewrite E. cbn. by eexists.
Qed.

Lemma Range_source_line_spec_witness :
  abcde_heap !! source_buffer (mkRange 1 1 3)
    = Some (Buffer_default (str "abcde")) /\
  Buffer_wf (Buffer_default (str "abcde")) /\
  (0 <= begin_pos (mkRange 1 1 3)
     <= len (source (Buffer_default (str "abcde"))) ->
   exists txt h' c h1,
     Range_source_line abcde_heap (mkRange 1 1 3) = Some (Ok txt, h') /\
     Range_column abcde_heap (mkRange 1 1 3) = Some (Ok c, h1) /\
     0 <= c /\
     (begin_pos (mkRange 1 1 3)
        < len (source (Buffer_default (str "abcde"))) ->
      txt !! Z.to_nat c
        = source (Buffer_default (str "abcde"))
            !! Z.to_nat (begin_pos (mkRange 1 1 3)))) /\
  (begin_pos (mkRange 1 1 3) < 0 \/
   begin_pos (mkRange 1 1 3) > len (source (Buffer_default (str "abcde"))) ->
   exists h',
     Range_source_line abcde_heap (mkRange 1 1 3)
       = Some (Raise IndexError, h')).
Proof.
  split; [reflexivity|]. split; [exact I|].
  exact (Range_source_line_spec abcde_heap (mkRange 1 1 3)
           (Buffer_default (str "abcde")) eq_refl I).
Defined.

(** ** Ranges: the rendered location *)

Lemma Buffer_decompose_position_same (b b0 : Buffer) (o : Z) :
  Buffer_wf b -> Buffer_wf b0 ->
  source b = source b0 -> first_line b = first_line b0 ->
  fst (Buffer_decompose_position b o) = fst (Buffer_decompose_position b0 o).
Proof.
  intros Hwf Hwf0 Hs Hf.
  rewrite !Buffer_decompose_position_eq by done. simpl. by rewrite Hs, Hf.
Qed.

(** One call of [line()] or [column()] in a store that holds the buffer
    of the range. *)
Lemma Range_line_column_step (h : heap) (r : Range) (b0 : Buffer) :
  Buffer_wf b0 -> holds_buffer h (source_buffer r) b0 ->
  exists h',
    holds_buffer h' (source_buffer r) b0 /\
    Range_line h r =
      Some ('(line, column) ← fst (Buffer_decompose_position b0 (begin_pos r));
            Ok line, h') /\
    Range_column h r =
      Some ('(line, column) ← fst (Buffer_decompose_position b0 (begin_pos r));
            Ok column, h').
Proof.
  intros Hwf0 (b & Hb & Hwf & Hs & Hn & Hf).
  exists (<[source_buffer r :=
             snd (Buffer_decompose_position b (begin_pos r))]> h).
  destruct (Buffer_decompose_position_wf b (begin_pos r) Hwf)
    as (Hwf' & Hs' & Hn' & Hf').
  pose proof (Buffer_decompose_position_same b b0 (begin_pos r)
                Hwf Hwf0 Hs Hf) as E.
  split.
  - eexists. split; [apply lookup_insert_eq|]. split; [done|].
    split; [congruence|]. split; congruence.
  - unfold Range_line, Range_column. rewrite Hb. simpl.
    destruct (Buffer_decompose_position b (begin_pos r)) as [res b'].
    simpl in E. by rewrite E.
Qed.

(** X20. The rendered location of a range: when [begin_pos] and [end_pos]
    are valid offsets of the buffer, [str(range)] is the name of the
    buffer, the line of [begin_pos], and the columns of [begin_pos] and of
    [end_pos], each plus one, in the layout [name:line:col-col]; when one
    of the two offsets is not valid, [str(range)] raises [IndexError]. *)
Theorem Range__str__spec (h : heap) (r : Range) (b : Buffer) :
  h !! source_buffer r = Some b -> Buffer_wf b ->
  (0 <= begin_pos r <= len (source b) ->
   0 <= end_pos r <= len (source b) ->
   exists line column end_line end_column h',
     fst (Buffer_decompose_position b (begin_pos r)) = Ok (line, column) /\
     fst (Buffer_decompose_position b (end_pos r))
       = Ok (end_line, end_column) /\
     Range__str__ h r =
       Some (Ok (name b +:+ ":" +:+ pretty line +:+ ":"
                   +:+ pretty (column + 1) +:+ "-"
                   +:+ pretty (end_column + 1)), h')) /\
  (~ (0 <= begin_pos r <= len (source b) /\
      0 <= end_pos r <= len (source b)) ->
   exists h', Range__str__ h r = Some (Raise IndexError, h')).
Proof.
  intros Hb Hwf.
  assert (H0 : holds_buffer h (source_buffer r) b) by (by exists b).
  destruct (Range_line_column_step h r b Hwf H0) as (h1 & H1 & El & _).
  destruct (Range_line_column_step h1 r b Hwf H1) as (h2 & H2 & _ & Ec).
  destruct (Range_line_column_step h2 (Range_end r) b Hwf H2)
    as (h3 & _ & _ & Ee).
  simpl in Ee. unfold Range__str__. rewrite Hb, El. cbn.
  destruct (decide (0 <= begin_pos r <= len (source b))) as [Hbp|Hbp].
  - destruct (Buffer_decompose_position_valid b (begin_pos r) Hwf Hbp)
      as (i & begin & _ & _ & _ & E1).
    rewrite E1. cbn. rewrite Ec, E1. cbn. rewrite Ee.
    destruct (decide (0 <= end_pos r <= len (source b))) as [Hep|Hep].
    + destruct (Buffer_decompose_position_valid b (end_pos r) Hwf Hep)
        as (i2 & begin2 & _ & _ & _ & E2).
      rewrite E2. cbn. split; [|tauto]. intros _ _.
      by eexists _, _, _, _, _.
    + rewrite Buffer_decompose_position_invalid by (done || lia). cbn.
      split; [tauto|]. intros _. by eexists.
  - rewrite Buffer_decompose_position_invalid by (done || lia). cbn.
    split; [tauto|]. intros _. by eexists.
Qed.

Lemma Range__str__spec_witness :
  abcde_heap !! source_buffer (mkRange 1 1 3)
    = Some (Buffer_default (str "abcde")) /\
  Buffer_wf (Buffer_default (str "abcde")) /\
  0 <= begin_pos (mkRange 1 1 3)
    <= len (source (Buffer_default (str "abcde"))) /\
  0 <= end_pos (mkRange 1 1 3)
    <= len (source (Buffer_default (str "abcde"))) /\
  exists line column end_line end_column h',
    fst (Buffer_decompose_position (Buffer_default (str "abcde"))
           (begin_pos (mkRange 1 1 3))) = Ok (line, column) /\
    fst (Buffer_decompose_position (Buffer_default (str "abcde"))
           (end_pos (mkRange 1 1 3))) = Ok (end_line, end_column) /\
    Range__str__ abcde_heap (mkRange 1 1 3) =
      Some (Ok (name (Buffer_default (str "abcde")) +:+ ":"
                  +:+ pretty line +:+ ":" +:+ pretty (column + 1) +:+ "-"
                  +:+ pretty (end_column + 1)), h').
Proof.
  split; [reflexivity|]. split; [exact I|].
  split; [by vm_compute|]. split; [by vm_compute|].
  apply (Range__str__spec abcde_heap (mkRange 1 1 3)
           (Buffer_default (str "abcde")) eq_refl I); by vm_compute.
Defined.

(** On ["ab\ncd\nef"], the range of ["cd"] is rendered
    ["<input>:2:1-3"]. *)
Example Range__str__scenario :
  fst <$> Range__str__ {[ 1%positive := Buffer_default three_lines ]}
            (mkRange 1 3 5)
  = Some (Ok "<input>:2:1-3"%string).
Proof. by vm_compute. Qed.

(** ** The rewriter: failure *)

(** X21. When [rewrite()] fails: it raises exactly when two consecutive
    edits, in the order sorted by [begin_pos], overlap; it then leaves the
    store as it was (no buffer is created and none is changed), and the
    rewriter with its edits sorted. *)
Theorem rewrite_fails_iff_overlap (self : Rewriter) (h : heap) (b : Buffer) :
  h !! buffer self = Some b ->
  ((exists e1 e2, adjacent (sorted_edits self) e1 e2 /\ overlap e1 e2) <->
   (exists e self' h',
      Rewriter_rewrite self h = Some (Raise e, self', h'))) /\
  (forall e self' h',
     Rewriter_rewrite self h = Some (Raise e, self', h') ->
     h' = h /\ self' = Rewriter__sort self).
Proof.
  intros Hb.
  destruct (Rewriter__check_cases (Rewriter__sort self))
    as [[_ Hd]|[_ (e1 & e2 & Ha & Ho)]].
  - rewrite (Rewriter_rewrite_ok self h b Hb Hd). split.
    + split; [|by intros (? & ? & ? & ?)].
      intros (e1 & e2 & Ha & Ho). by destruct (Hd e1 e2).
    + by intros e self' h'.
  - rewrite (Rewriter_rewrite_overlap self h e1 e2 Ha Ho). split.
    + split; [by eexists _, _, _|]. intros _. by exists e1, e2.
    + by intros e self' h' [= _ <- <-].
Qed.

Lemma rewrite_fails_iff_overlap_witness :
  abcde_heap !! buffer overlapping_rewriter
    = Some (Buffer_default (str "abcde")) /\
  ((exists e1 e2,
      adjacent (sorted_edits overlapping_rewriter) e1 e2 /\ overlap e1 e2) <->
   (exists e self' h',
      Rewriter_rewrite overlapping_rewriter abcde_heap
        = Some (Raise e, self', h'))) /\
  (forall e self' h',
     Rewriter_rewrite overlapping_rewriter abcde_heap
       = Some (Raise e, self', h') ->
     h' = abcde_heap /\ self' = Rewriter__sort overlapping_rewriter).
Proof.
  split; [reflexivity|].
  exact (rewrite_fails_iff_overlap overlapping_rewriter abcde_heap
           (Buffer_default (str "abcde")) eq_refl).
Defined.
